(** * A tokenizer and a recursive-descent parser for arithmetic statements

    Shallow embedding of [personal/tokenizerCommented.py] and
    [personal/parserCommented.py].

    Conventions of the embedding.

    - A Python [str] is a [list ascii]: a sequence of code points below 256.
      On that range the class [\d] of Python's [re] is exactly ['0'..'9'],
      and [\s] is the twelve code points listed in [space].
    - A token dictionary [{"tag", "position", "value"}] is the record
      [token]; the tag is [Some name] or [None] (Python's [None]).
    - An AST dictionary is a value of the inductive type [ast].
    - A call either returns, raises, or is cut off by the iteration budget of
      the model ([OutOfFuel]); the budget is shown to be never exhausted.
    - The built-in [float] is a parameter of the development ([py_float]);
      the built-in [int] is computed on the digit strings that reach it: the
      integer they denote, or [ValueError] when the string has more digits
      than [int] converts ([int_max_str_digits]).
    - The recursion limit of the interpreter is not part of the model. *)

From Stdlib Require Import Bool Arith Lia List ZArith QArith.
From Stdlib Require Import Ascii String DecimalString DecimalNat.
From Stdlib Require Import Sorted.
Import ListNotations.

Local Open Scope string_scope.
Local Open Scope list_scope.
Local Open Scope nat_scope.

(** ** Exceptions and outcomes *)

Inductive exn : Type :=
| Exception (msg : string)   (* raise Exception(msg) *)
| AssertionError             (* a failed assert *)
| IndexError                 (* tokens[0] on an empty list *)
| ValueError.                (* int() on a text that is no integer literal *)

Inductive result (A : Type) : Type :=
| Ok (a : A)
| Raise (e : exn)
| OutOfFuel.

Arguments Ok {A} a.
Arguments Raise {A} e.
Arguments OutOfFuel {A}.

Definition bind {A B : Type} (r : result A) (k : A -> result B) : result B :=
  match r with
  | Ok a => k a
  | Raise e => Raise e
  | OutOfFuel => OutOfFuel
  end.

Notation "x <- r ;; k" := (bind r (fun x => k))
  (at level 61, r at next level, right associativity).
Notation "' pat <- r ;; k" := (bind r (fun x => match x with pat => k end))
  (at level 61, pat pattern, r at next level, right associativity).

(** A Python string literal as a sequence of characters. *)
Definition str (s : string) : list ascii := list_ascii_of_string s.

(** ** Regular expressions, as far as the pattern table uses them

    A pattern is an ordered alternation of branches; a branch is a sequence
    of character classes, each taken once, or under a greedy [*] or [+].
    Matching is Python's: leftmost branch first, a greedy piece takes as many
    characters as it can and gives them back one by one when the rest of the
    branch fails. *)

Inductive quant : Type := Once | Star | Plus.

Definition cclass : Type := ascii -> bool.
Definition piece : Type := (cclass * quant)%type.
Definition branch : Type := list piece.
Definition regex : Type := list branch.

(** Number of leading characters of [s] that belong to class [c]. *)
Fixpoint span (c : cclass) (s : list ascii) : nat :=
  match s with
  | a :: s' => if c a then S (span c s') else 0
  | [] => 0
  end.

(** A greedy piece holding [k] characters: try the rest of the branch after
    [k] characters, then after [k-1], ... down to [lo]. *)
Fixpoint give_back (rest : list ascii -> option nat) (s : list ascii)
         (lo k : nat) {struct k} : option nat :=
  if k <? lo then None
  else match rest (skipn k s) with
       | Some n => Some (k + n)
       | None => match k with
                 | 0 => None
                 | S k' => give_back rest s lo k'
                 end
       end.

(** Length of the match of branch [b] at the start of [s]. *)
Fixpoint match_branch (b : branch) (s : list ascii) {struct b} : option nat :=
  match b with
  | [] => Some 0
  | (c, Once) :: b' =>
      match s with
      | a :: s' => if c a then option_map S (match_branch b' s') else None
      | [] => None
      end
  | (c, Star) :: b' => give_back (match_branch b') s 0 (span c s)
  | (c, Plus) :: b' => give_back (match_branch b') s 1 (span c s)
  end.

Fixpoint match_regex (r : regex) (s : list ascii) : option nat :=
  match r with
  | [] => None
  | b :: r' =>
      match match_branch b s with
      | Some n => Some n
      | None => match_regex r' s
      end
  end.

(** [pattern.match(characters, position)]: the length of the match that
    starts at [position], if there is one. *)
Definition re_match (pattern : regex) (characters : list ascii)
           (position : nat) : option nat :=
  match_regex pattern (skipn position characters).

(** ** Character classes *)

Definition code (a : ascii) : nat := nat_of_ascii a.

Definition between (lo hi : nat) (a : ascii) : bool :=
  (lo <=? code a) && (code a <=? hi).

Definition is_char (c : ascii) : cclass := Ascii.eqb c.

(* \d *)
Definition digit : cclass := between 48 57.

(* [a-zA-Z_] *)
Definition ident_start : cclass :=
  fun a => between 97 122 a || between 65 90 a || is_char "_" a.

(* [a-zA-Z0-9_] *)
Definition ident_char : cclass :=
  fun a => between 97 122 a || between 65 90 a || between 48 57 a
           || is_char "_" a.

(* \s *)
Definition space : cclass :=
  fun a => between 9 13 a || between 28 32 a
           || (code a =? 133) || (code a =? 160).

(* . : every character but the newline *)
Definition any_char : cclass := fun a => negb (code a =? 10).

(** A pattern that is a plain word. *)
Definition lit (w : string) : regex :=
  [map (fun c => (is_char c, Once)) (str w)].

(** ** The pattern table *)

Definition number_pattern : regex :=
  [ [(digit, Star); (is_char ".", Once); (digit, Plus)];
    [(digit, Plus); (is_char ".", Once); (digit, Star)];
    [(digit, Plus)] ].

Definition patterns : list (regex * string) :=
  [ (lit "print", "print");
    (number_pattern, "number");
    ([[(ident_start, Once); (ident_char, Star)]], "identifier");
    (lit "+", "+");
    (lit "-", "-");
    (lit "*", "*");
    (lit "/", "/");
    (lit "(", "(");
    (lit ")", ")");
    ([[(space, Plus)]], "whitespace");
    ([[(any_char, Once)]], "error") ].

(** The [for pattern, tag in patterns] loop with its [break]: the first
    pattern that matches at [position], with its tag and the match length. *)
Fixpoint first_match (ps : list (regex * string)) (characters : list ascii)
         (position : nat) : option (string * nat) :=
  match ps with
  | [] => None
  | (pattern, tag) :: ps' =>
      match re_match pattern characters position with
      | Some n => Some (tag, n)
      | None => first_match ps' characters position
      end
  end.

(** ** The built-in [int] on decimal digit strings *)

Definition digit_value (a : ascii) : Z := (Z.of_nat (code a) - 48)%Z.

(** The number of digits beyond which [int] refuses to convert a decimal
    text ([sys.int_info.default_max_str_digits]); leading zeros count. *)
Definition int_max_str_digits : nat := 4300.

(** [int(text)] for a text of decimal digits; [None] is [ValueError]. *)
Definition py_int (text : list ascii) : option Z :=
  match text with
  | [] => None
  | _ :: _ =>
      if forallb digit text && (List.length text <=? int_max_str_digits)
      then Some (fold_left (fun acc a => (10 * acc + digit_value a)%Z) text 0%Z)
      else None
  end.

(** The integer that a string of digits denotes, digit by digit with its
    power of ten. *)
Fixpoint positional (text : list ascii) : Z :=
  match text with
  | [] => 0%Z
  | a :: rest =>
      (digit_value a * 10 ^ Z.of_nat (List.length rest) + positional rest)%Z
  end.

(** An interpretation of decimal literals by exact rationals.  It is one
    possible reading of the [py_float] parameter below, used to run the
    tokenizer on concrete inputs. *)
Definition exact_decimal (text : list ascii) : Q :=
  let digits := filter digit text in
  let frac := List.length (filter digit (skipn (span digit text) text)) in
  Qmake (fold_left (fun acc a => (10 * acc + digit_value a)%Z) digits 0%Z)
        (Z.to_pos (10 ^ Z.of_nat frac)).

(** ** Notions used to state the properties *)

(** The least number of characters a branch can match. *)
Definition min_len (b : branch) : nat :=
  List.length (filter (fun p => match snd p with Star => false | _ => true end) b).

(** Every branch of every pattern of the table takes at least one
    character. *)
Definition consuming (ps : list (regex * string)) : bool :=
  forallb (fun p => forallb (fun b => 1 <=? min_len b) (fst p)) ps.

(** [s] begins with the characters of [p]. *)
Fixpoint starts_with (p s : list ascii) : bool :=
  match p, s with
  | [], _ => true
  | a :: p', b :: s' => Ascii.eqb a b && starts_with p' s'
  | _ :: _, [] => false
  end.

(** The tags a token of the output can carry. *)
Definition grammar_tags : list string :=
  ["print"; "number"; "identifier"; "+"; "-"; "*"; "/"; "("; ")"].

(** Only the catch-all rule matches at [position]. *)
Definition only_error_rule (characters : list ascii) (position : nat) : Prop :=
  (forall pattern name,
      In (pattern, name) patterns -> name <> "error" ->
      re_match pattern characters position = None)
  /\ re_match [[(any_char, Once)]] characters position <> None.

(** [r'] is [r] computed with a larger budget. *)
Definition refines {A : Type} (r r' : result A) : Prop :=
  r = OutOfFuel \/ r = r'.

(** The part of a text that starts at [start] and has [len] characters. *)
Definition slice (characters : list ascii) (start len : nat) : list ascii :=
  firstn len (skipn start characters).

(** The 256 characters, and the test that no character is in both of two
    classes. *)
Definition all_ascii : list ascii := map ascii_of_nat (seq 0 256).

Definition disjoint (c d : cclass) : bool :=
  forallb (fun a => negb (c a && d a)) all_ascii.

(** No class of a pattern that yields a token contains a whitespace
    character. *)
Definition tokens_free_of_space (ps : list (regex * string)) : bool :=
  forallb (fun p =>
             String.eqb (snd p) "whitespace" || String.eqb (snd p) "error"
             || forallb (forallb (fun q => disjoint (fst q) space)) (fst p))
          ps.

(** ** Tokens and syntax trees *)

Section Language.

(** The type of Python's floating-point numbers and the built-in [float]
    applied to a text. *)
Variable float : Type.
Variable py_float : list ascii -> float.

(** What the ["value"] field of a token or of a number node can hold. *)
Inductive pyval : Type :=
| VStr (text : list ascii)
| VInt (n : Z)
| VFloat (x : float)
| VNone.

Record token : Type := mkToken {
  tag : option string;
  position : nat;
  value : pyval
}.

Inductive ast : Type :=
| Number (v : pyval)                          (* {"tag": "number", "value": v} *)
| BinaryOp (op : string) (left right : ast)   (* {"tag": op, "left", "right"} *)
| Print (e : ast).                            (* {"tag": "print", "value": e} *)

(** The end-of-stream marker appended by [tokenize]. *)
Definition end_marker (position : nat) : token := mkToken None position VNone.

(** ** The tokenizer *)

(** The value stored in a token: the matched text, decoded when the tag is
    ["number"]. *)
Definition token_value (tag : string) (text : list ascii) : result pyval :=
  if String.eqb tag "number" then
    if existsb (is_char ".") text then Ok (VFloat (py_float text))
    else match py_int text with
         | Some n => Ok (VInt n)
         | None => Raise ValueError
         end
  else Ok (VStr text).

(** The [while position < len(characters)] loop of [tokenize], with the
    token list and the position as its state. *)
Fixpoint tokenize_while (fuel : nat) (characters : list ascii)
         (tokens : list token) (position : nat) {struct fuel}
  : result (list token) :=
  if position <? List.length characters then
    match fuel with
    | 0 => OutOfFuel
    | S fuel' =>
        match first_match patterns characters position with
        | None => Raise AssertionError
        | Some (tag, n) =>
            if String.eqb tag "error" then Raise (Exception "Syntax error")
            else
              let text := firstn n (skipn position characters) in
              v <- token_value tag text ;;
              let tokens' :=
                if negb (String.eqb tag "whitespace")
                then tokens ++ [mkToken (Some tag) position v]
                else tokens in
              tokenize_while fuel' characters tokens' (position + n)
        end
    end
  else Ok (tokens ++ [end_marker position]).

Definition tokenize (characters : list ascii) : result (list token) :=
  tokenize_while (List.length characters) characters [] 0.

(** [t] is a token the loop builds at its position in [characters]: the
    first pattern that matches there gives the tag, and the matched text
    gives the value. *)
Definition lexed (characters : list ascii) (t : token) : Prop :=
  exists name n,
    tag t = Some name
    /\ first_match patterns characters (position t) = Some (name, n)
    /\ name <> "whitespace" /\ name <> "error"
    /\ token_value name
         (firstn n (skipn (position t) characters)) = Ok (value t).

(** The positions at which the loop of [tokenize] stands during a run: the
    start of the text, and the end of every match whose round is completed,
    that is, a match that is not an error and whose text is decoded. *)
Inductive scans (characters : list ascii) : nat -> Prop :=
| scans_start : scans characters 0
| scans_next p name n v :
    scans characters p ->
    p < List.length characters ->
    first_match patterns characters p = Some (name, n) ->
    name <> "error" ->
    token_value name (firstn n (skipn p characters)) = Ok v ->
    scans characters (p + n).

(** ** The parser *)

(** [token["tag"] == name]. *)
Definition tag_is (t : token) (name : string) : bool :=
  match tag t with
  | Some x => String.eqb x name
  | None => false
  end.

(** [token["tag"] in names]: the operator when it is one of [names]. *)
Definition tag_in (t : token) (names : list string) : option string :=
  match tag t with
  | Some x => if existsb (String.eqb x) names then Some x else None
  | None => None
  end.

(** How an f-string prints a tag and a position. *)
Definition show_tag (x : option string) : string :=
  match x with
  | Some name => name
  | None => "None"
  end.

Definition show_nat (n : nat) : string :=
  NilEmpty.string_of_uint (Nat.to_uint n).

(* f"Unexpected token '{token['tag']}' at position {token['position']}." *)
Definition unexpected (t : token) : string :=
  "Unexpected token '" ++ show_tag (tag t) ++ "' at position "
    ++ show_nat (position t) ++ ".".

(** The grammar functions, each with the budget of nested calls and loop
    rounds it may still spend.  [parse_term_while] and
    [parse_expression_while] are the [while] loops of [parse_term] and
    [parse_expression], with [node] and [tokens] as their state. *)
Fixpoint parse_factor_n (fuel : nat) (tokens : list token) {struct fuel}
  : result (ast * list token) :=
  match fuel with
  | 0 => OutOfFuel
  | S fuel' =>
      match tokens with
      | [] => Raise IndexError
      | token :: rest =>
          if tag_is token "number" then Ok (Number (value token), rest)
          else if tag_is token "(" then
            '(node, tokens1) <- parse_expression_n fuel' rest ;;
            match tokens1 with
            | [] => Raise IndexError
            | closing :: rest1 =>
                if tag_is closing ")" then Ok (node, rest1)
                else Raise AssertionError
            end
          else Raise (Exception (unexpected token))
      end
  end

with parse_term_n (fuel : nat) (tokens : list token) {struct fuel}
  : result (ast * list token) :=
  match fuel with
  | 0 => OutOfFuel
  | S fuel' =>
      '(node, tokens1) <- parse_factor_n fuel' tokens ;;
      parse_term_while_n fuel' node tokens1
  end

with parse_term_while_n (fuel : nat) (node : ast) (tokens : list token)
       {struct fuel} : result (ast * list token) :=
  match fuel with
  | 0 => OutOfFuel
  | S fuel' =>
      match tokens with
      | [] => Raise IndexError
      | token :: rest =>
          match tag_in token ["*"; "/"] with
          | Some op =>
              '(right_node, tokens1) <- parse_factor_n fuel' rest ;;
              parse_term_while_n fuel' (BinaryOp op node right_node) tokens1
          | None => Ok (node, tokens)
          end
      end
  end

with parse_expression_n (fuel : nat) (tokens : list token) {struct fuel}
  : result (ast * list token) :=
  match fuel with
  | 0 => OutOfFuel
  | S fuel' =>
      '(node, tokens1) <- parse_term_n fuel' tokens ;;
      parse_expression_while_n fuel' node tokens1
  end

with parse_expression_while_n (fuel : nat) (node : ast) (tokens : list token)
       {struct fuel} : result (ast * list token) :=
  match fuel with
  | 0 => OutOfFuel
  | S fuel' =>
      match tokens with
      | [] => Raise IndexError
      | token :: rest =>
          match tag_in token ["+"; "-"] with
          | Some op =>
              '(right_node, tokens1) <- parse_term_n fuel' rest ;;
              parse_expression_while_n fuel' (BinaryOp op node right_node)
                                       tokens1
          | None => Ok (node, tokens)
          end
      end
  end.

(** A budget that is enough for every function above on [tokens]. *)
Definition budget (tokens : list token) : nat := 3 * List.length tokens + 3.

Definition parse_factor (tokens : list token) : result (ast * list token) :=
  parse_factor_n (budget tokens) tokens.

Definition parse_term (tokens : list token) : result (ast * list token) :=
  parse_term_n (budget tokens) tokens.

Definition parse_term_while (node : ast) (tokens : list token)
  : result (ast * list token) :=
  parse_term_while_n (budget tokens) node tokens.

Definition parse_expression (tokens : list token)
  : result (ast * list token) :=
  parse_expression_n (budget tokens) tokens.

Definition parse_expression_while (node : ast) (tokens : list token)
  : result (ast * list token) :=
  parse_expression_while_n (budget tokens) node tokens.

Definition parse_statement (tokens : list token)
  : result (ast * list token) :=
  match tokens with
  | [] => Raise IndexError
  | token :: rest =>
      if tag_is token "print" then
        '(value_ast, tokens1) <- parse_expression rest ;;
        Ok (Print value_ast, tokens1)
      else parse_expression tokens
  end.

Definition parse (tokens : list token) : result ast :=
  '(node, _) <- parse_statement tokens ;;
  Ok node.

(** ** Notions used to state the properties of the parser *)

(** The tokens of [op1 n1 op2 n2 ...], given as pairs of an operator token
    and an operand token. *)
Definition chain (pairs : list (token * token)) : list token :=
  flat_map (fun p => [fst p; snd p]) pairs.

(** A pair of an operator among [names] and a number. *)
Definition op_number (names : list string) (p : token * token) : Prop :=
  (exists op, tag_in (fst p) names = Some op)
  /\ tag_is (snd p) "number" = true.

(** The node built from the node so far and the next pair: the node so far
    goes to the left. *)
Definition fold_op (acc : ast) (p : token * token) : ast :=
  BinaryOp (show_tag (tag (fst p))) acc (Number (value (snd p))).

(** The exception raised for a token of [tokens] that cannot start a
    factor; its message names the tag and the position of that token. *)
Definition unexpected_in (tokens : list token) (e : exn) : Prop :=
  exists t, In t tokens
            /\ tag_is t "number" = false /\ tag_is t "(" = false
            /\ e = Exception ("Unexpected token '" ++ show_tag (tag t)
                               ++ "' at position " ++ show_nat (position t)
                               ++ ".").

(** The three ways in which the grammar functions fail. *)
Definition parse_failure (tokens : list token) (e : exn) : Prop :=
  unexpected_in tokens e \/ e = AssertionError \/ e = IndexError.

(** A token of the output and the text it was built from: the text stands
    in the input at the position of the token, and the value of the token is
    decoded from it. *)
Definition text_of (characters : list ascii) (t : token)
           (text : list ascii) : Prop :=
  text <> []
  /\ slice characters (position t) (List.length text) = text
  /\ exists name, tag t = Some name /\ token_value name text = Ok (value t).

(** The words of a tree, read from left to right: the values of its numbers
    and the names of its operators and of [print]. *)
Inductive word : Type :=
| Operand (v : pyval)
| Name (name : string).

Fixpoint flatten (node : ast) : list word :=
  match node with
  | Number v => [Operand v]
  | BinaryOp op l r => flatten l ++ Name op :: flatten r
  | Print e => Name "print" :: flatten e
  end.

(** The words of a token: a number gives its value, a parenthesis gives
    nothing, every other tag gives its name. *)
Definition token_words (t : token) : list word :=
  if tag_is t "number" then [Operand (value t)]
  else if tag_is t "(" || tag_is t ")" then []
  else match tag t with
       | Some name => [Name name]
       | None => []
       end.

(** A tree of an expression: numbers under the four operators. *)
Fixpoint expression_tree (node : ast) : Prop :=
  match node with
  | Number _ => True
  | BinaryOp op l r =>
      In op ["+"; "-"; "*"; "/"] /\ expression_tree l /\ expression_tree r
  | Print _ => False
  end.

(** Two tokens with the same tag and the same value; their positions may
    differ. *)
Definition alike (a b : token) : Prop :=
  tag a = tag b /\ value a = value b.

(** The token [t] moved [offset] characters to the right. *)
Definition shift (offset : nat) (t : token) : token :=
  mkToken (tag t) (offset + position t) (value t).

(** A token list that ends with a token tagged [None], as the lists that
    [tokenize] returns do. *)
Definition terminated (tokens : list token) : Prop :=
  exists body e, tokens = body ++ [e] /\ tag e = None.

End Language.

Arguments VStr {float} text.
Arguments VInt {float} n.
Arguments VFloat {float} x.
Arguments VNone {float}.
Arguments mkToken {float} tag position value.
Arguments tag {float} t.
Arguments position {float} t.
Arguments value {float} t.
Arguments Number {float} v.
Arguments BinaryOp {float} op left right.
Arguments Print {float} e.
Arguments end_marker {float} position.
Arguments token_value {float} py_float tag text.
Arguments tokenize_while {float} py_float fuel characters tokens position.
Arguments tokenize {float} py_float characters.
Arguments lexed {float} py_float characters t.
Arguments scans {float} py_float characters _.
Arguments tag_is {float} t name.
Arguments tag_in {float} t names.
Arguments unexpected {float} t.
Arguments parse_factor_n {float} fuel tokens.
Arguments parse_term_n {float} fuel tokens.
Arguments parse_term_while_n {float} fuel node tokens.
Arguments parse_expression_n {float} fuel tokens.
Arguments parse_expression_while_n {float} fuel node tokens.
Arguments budget {float} tokens.
Arguments parse_factor {float} tokens.
Arguments parse_term {float} tokens.
Arguments parse_term_while {float} node tokens.
Arguments parse_expression {float} tokens.
Arguments parse_expression_while {float} node tokens.
Arguments parse_statement {float} tokens.
Arguments parse {float} tokens.
Arguments chain {float} pairs.
Arguments op_number {float} names p.
Arguments fold_op {float} acc p.
Arguments unexpected_in {float} tokens e.
Arguments text_of {float} py_float characters t text.
Arguments Operand {float} v.
Arguments Name {float} name.
Arguments flatten {float} node.
Arguments token_words {float} t.
Arguments expression_tree {float} node.
Arguments alike {float} a b.
Arguments shift {float} offset t.
Arguments parse_failure {float} tokens e.
Arguments terminated {float} tokens.

(** * Properties of the matcher *)

Section Matcher.

Lemma firstn_plus {A : Type} (j m : nat) (s : list A) :
  firstn (j + m) s = firstn j s ++ firstn m (skipn j s).
Proof.
  revert s; induction j as [|j IH]; intros [|a s]; simpl; trivial.
  - now rewrite firstn_nil.
  - now rewrite IH.
Qed.

Lemma span_le (c : cclass) (s : list ascii) : span c s <= List.length s.
Proof.
  induction s as [|a s IH]; simpl; [lia|].
  destruct (c a); simpl; lia.
Qed.

Lemma span_all (c : cclass) (s : list ascii) (k : nat) :
  k <= span c s -> forallb c (firstn k s) = true.
Proof.
  revert k; induction s as [|a s IH]; intros [|k] Hk; simpl in *; trivial.
  destruct (c a) eqn:Ha; [|lia].
  simpl. apply IH. lia.
Qed.

Lemma span_forallb (c : cclass) (s : list ascii) :
  forallb c s = true -> span c s = List.length s.
Proof.
  induction s as [|a s IH]; simpl; trivial.
  destruct (c a); simpl; [|discriminate].
  intros H. now rewrite IH.
Qed.

Lemma give_back_eq rest s lo k :
  give_back rest s lo k =
  if k <? lo then None
  else match rest (skipn k s) with
       | Some n => Some (k + n)
       | None => match k with
                 | 0 => None
                 | S k' => give_back rest s lo k'
                 end
       end.
Proof. destruct k; reflexivity. Qed.

(** What a successful [give_back] found: a number [j] of characters kept by
    the greedy piece, between [lo] and [k], after which the rest matched. *)
Lemma give_back_some rest s lo k n :
  give_back rest s lo k = Some n ->
  exists j m, lo <= j <= k /\ rest (skipn j s) = Some m /\ n = j + m.
Proof.
  induction k as [|k IH]; rewrite give_back_eq;
    (match goal with
     | |- context [?a <? lo] => destruct (Nat.ltb_spec0 a lo) as [Hlt|Hge]
     end; [discriminate|]);
    (match goal with
     | |- context [rest ?t] => destruct (rest t) as [m|] eqn:Hm
     end); try discriminate.
  - intros [= <-]. exists 0, m. repeat split; trivial; lia.
  - intros [= <-]. exists (S k), m. repeat split; trivial; lia.
  - intros H. destruct (IH H) as (j & m & Hj & Hr & ->).
    exists j, m. repeat split; trivial; lia.
Qed.

(** The greedy preference: when the rest of the branch matches after all [k]
    characters, that is the match. *)
Lemma give_back_greedy rest s lo k m :
  lo <= k -> rest (skipn k s) = Some m -> give_back rest s lo k = Some (k + m).
Proof.
  intros Hlo Hm. rewrite give_back_eq.
  destruct (Nat.ltb_spec0 k lo); [lia|]. now rewrite Hm.
Qed.

Lemma match_branch_bounds (b : branch) :
  forall s n, match_branch b s = Some n ->
              min_len b <= n /\ n <= List.length s.
Proof.
  induction b as [|[c [| |]] b IH]; intros s n; simpl.
  - intros [= <-]. unfold min_len; simpl. lia.
  - destruct s as [|a s]; [discriminate|].
    destruct (c a); [|discriminate].
    destruct (match_branch b s) as [m|] eqn:Hm; [|discriminate].
    intros [= <-]. destruct (IH _ _ Hm). unfold min_len in *; simpl. lia.
  - intros H. destruct (give_back_some _ _ _ _ _ H) as (j & m & Hj & Hr & ->).
    destruct (IH _ _ Hr) as [H1 H2].
    pose proof (span_le c s). rewrite length_skipn in H2.
    unfold min_len in *; simpl. lia.
  - intros H. destruct (give_back_some _ _ _ _ _ H) as (j & m & Hj & Hr & ->).
    destruct (IH _ _ Hr) as [H1 H2].
    pose proof (span_le c s). rewrite length_skipn in H2.
    unfold min_len in *; simpl. lia.
Qed.

(** Every character of a match belongs to one of the classes of its branch. *)
Lemma match_branch_chars (b : branch) :
  forall s n, match_branch b s = Some n ->
              forallb (fun a => existsb (fun p => fst p a) b) (firstn n s) = true.
Proof.
  induction b as [|[c q] b IH]; intros s n.
  - simpl. intros [= <-]. reflexivity.
  - assert (Hw : forall t k, forallb (fun a => existsb (fun p => fst p a) b) t = true ->
                 forallb c (firstn k s) = true ->
                 forallb (fun a => existsb (fun p => fst p a) ((c, q) :: b))
                         (firstn k s ++ t) = true).
    { intros t k Ht Hk. rewrite forallb_app. apply andb_true_iff; split.
      - rewrite forallb_forall in *. intros a Ha. simpl. now rewrite (Hk a Ha).
      - rewrite forallb_forall in *. intros a Ha. simpl. rewrite (Ht a Ha).
        apply orb_true_r. }
    assert (Hg : forall lo, give_back (match_branch b) s lo (span c s) = Some n ->
                 forallb (fun a => existsb (fun p => fst p a) ((c, q) :: b))
                         (firstn n s) = true).
    { intros lo H.
      destruct (give_back_some _ _ _ _ _ H) as (j & m & Hj & Hr & ->).
      rewrite firstn_plus. apply Hw; [now apply IH|apply span_all; lia]. }
    destruct q; simpl; eauto.
    destruct s as [|a s]; [discriminate|].
    destruct (c a) eqn:Ha; [|discriminate].
    destruct (match_branch b s) as [m|] eqn:Hm; [|discriminate].
    intros [= <-]. simpl. rewrite Ha. simpl. 
    specialize (IH _ _ Hm). rewrite forallb_forall in *.
    intros x Hx. simpl. rewrite (IH x Hx). apply orb_true_r.
Qed.

End Matcher.

(** * Properties of the pattern table *)

Section Patterns.

Lemma match_regex_in (r : regex) (s : list ascii) (n : nat) :
  match_regex r s = Some n -> exists b, In b r /\ match_branch b s = Some n.
Proof.
  induction r as [|b r IH]; simpl; [discriminate|].
  destruct (match_branch b s) as [m|] eqn:Hm.
  - intros [= <-]. eauto.
  - intros H. destruct (IH H) as (b' & Hin & Hb). eauto.
Qed.

Lemma first_match_in ps characters position name n :
  first_match ps characters position = Some (name, n) ->
  exists pattern, In (pattern, name) ps
                  /\ re_match pattern characters position = Some n.
Proof.
  induction ps as [|[pattern t] ps IH]; simpl; [discriminate|].
  destruct (re_match pattern characters position) as [m|] eqn:Hm.
  - intros [= <- <-]. eauto.
  - intros H. destruct (IH H) as (p & Hin & Hp). eauto.
Qed.

Lemma patterns_consuming : consuming patterns = true.
Proof. reflexivity. Qed.

Lemma first_match_bounds characters position name n :
  first_match patterns characters position = Some (name, n) ->
  1 <= n /\ position + n <= List.length characters
  /\ In name (map snd patterns).
Proof.
  intros H. destruct (first_match_in _ _ _ _ _ H) as (pattern & Hin & Hre).
  destruct (match_regex_in _ _ _ Hre) as (b & Hb & Hm).
  destruct (match_branch_bounds _ _ _ Hm) as [Hlo Hhi].
  pose proof patterns_consuming as Hc. unfold consuming in Hc.
  rewrite forallb_forall in Hc. specialize (Hc _ Hin).
  rewrite forallb_forall in Hc. specialize (Hc _ Hb).
  apply Nat.leb_le in Hc. rewrite length_skipn in Hhi.
  repeat split; try lia.
  change name with (snd (pattern, name)). now apply in_map.
Qed.

Lemma newline_only (a : ascii) : any_char a = false -> a = "010"%char.
Proof.
  destruct a as [[] [] [] [] [] [] [] []]; vm_compute; intros H;
    (discriminate H || reflexivity).
Qed.

(** The [assert match] of the loop never fails: at a position inside the
    text some pattern matches. *)
Lemma first_match_total characters position :
  position < List.length characters ->
  first_match patterns characters position <> None.
Proof.
  intros Hlt.
  assert (Hs : exists a s, skipn position characters = a :: s).
  { destruct (skipn position characters) as [|a s] eqn:E; eauto.
    apply (f_equal (@List.length ascii)) in E.
    rewrite length_skipn in E. simpl in E. lia. }
  destruct Hs as (a & s & Hs).
  destruct (any_char a) eqn:Ha.
  - unfold first_match, patterns.
    repeat match goal with
           | |- context [re_match ?r characters position] =>
               destruct (re_match r characters position) eqn:?;
               [discriminate|]
           end.
    match goal with
    | H : re_match [[(any_char, Once)]] _ _ = None |- _ =>
        unfold re_match in H; rewrite Hs in H; simpl in H; rewrite Ha in H;
        discriminate H
    end.
  - apply newline_only in Ha. subst a.
    unfold first_match, patterns, re_match. rewrite Hs.
    cbn. rewrite !give_back_eq. cbn. discriminate.
Qed.

(** The tags of the table are pairwise different, so a tag names its
    pattern. *)
Lemma number_tag_pattern pattern :
  In (pattern, "number") patterns -> pattern = number_pattern.
Proof.
  unfold patterns. simpl.
  intros H.
  repeat (destruct H as [H|H]; [try discriminate H; now injection H|]).
  contradiction.
Qed.

(** A text matched by the number pattern is made of digits and dots, and is
    not empty. *)
Lemma number_pattern_chars (s : list ascii) (n : nat) :
  match_regex number_pattern s = Some n ->
  1 <= n <= List.length s
  /\ forallb (fun a => digit a || is_char "." a) (firstn n s) = true.
Proof.
  intros H. destruct (match_regex_in _ _ _ H) as (b & Hb & Hm).
  pose proof (match_branch_bounds _ _ _ Hm) as [Hlo Hhi].
  pose proof (match_branch_chars _ _ _ Hm) as Hc.
  clear H Hm. simpl in Hb.
  destruct Hb as [<-|[<-|[<-|[]]]];
    (split; [unfold min_len in Hlo; simpl in Hlo; lia|]);
    rewrite forallb_forall in *; intros a Ha; specialize (Hc a Ha);
    cbn [existsb fst] in Hc;
    destruct (digit a), (is_char "." a); trivial; discriminate Hc.
Qed.

Lemma no_dot_all_digits (text : list ascii) :
  forallb (fun a => digit a || is_char "." a) text = true ->
  existsb (is_char ".") text = false ->
  forallb digit text = true.
Proof.
  induction text as [|a text IH]; simpl; trivial.
  intros H1 H2. apply andb_true_iff in H1 as [Ha Ht].
  apply orb_false_iff in H2 as [Hd Hr].
  rewrite Hd, orb_false_r in Ha. rewrite Ha. simpl. auto.
Qed.

Lemma first_match_error characters position :
  (exists n, first_match patterns characters position = Some ("error", n))
  <-> only_error_rule characters position.
Proof.
  split.
  - intros [n H]. unfold first_match, patterns in H.
    repeat match type of H with
           | context [re_match ?r characters position] =>
               destruct (re_match r characters position) eqn:?;
               [try discriminate H|]
           end; [|discriminate H].
    split.
    + intros pattern name Hin Hne. unfold patterns in Hin. simpl in Hin.
      repeat (destruct Hin as [Hin|Hin];
              [injection Hin as <- <-; try assumption; now elim Hne|]).
      contradiction.
    + congruence.
  - intros [Hnone Hsome].
    assert (Hp : forall pattern name ps,
               In (pattern, name) patterns -> name <> "error" ->
               first_match ((pattern, name) :: ps) characters position
               = first_match ps characters position).
    { intros pattern name ps Hin Hne. simpl. now rewrite (Hnone _ _ Hin Hne). }
    unfold patterns at 1.
    repeat (rewrite Hp; [|unfold patterns; simpl; tauto|discriminate]).
    simpl. destruct (re_match _ characters position) as [n|]; [eauto|].
    now elim Hsome.
Qed.

End Patterns.

(** * Properties of the tokenizer loop *)

Section TokenizerLoop.

Context {float : Type} (py_float : list ascii -> float).

Lemma tokenize_while_eq fuel characters (tokens : list (token float)) position :
  tokenize_while py_float fuel characters tokens position =
  if position <? List.length characters then
    match fuel with
    | 0 => OutOfFuel
    | S fuel' =>
        match first_match patterns characters position with
        | None => Raise AssertionError
        | Some (tag, n) =>
            if String.eqb tag "error" then Raise (Exception "Syntax error")
            else
              v <- token_value py_float tag
                     (firstn n (skipn position characters)) ;;
              tokenize_while py_float fuel' characters
                (if negb (String.eqb tag "whitespace")
                 then tokens ++ [mkToken (Some tag) position v]
                 else tokens)
                (position + n)
        end
    end
  else Ok (tokens ++ [end_marker position]).
Proof. destruct fuel; reflexivity. Qed.

(** Decoding fails in no other way than by the [ValueError] of [int]. *)
Lemma token_value_raise name text e :
  token_value py_float name text = Raise e -> e = ValueError.
Proof.
  unfold token_value. destruct (String.eqb name "number"); [|discriminate].
  destruct (existsb _ text); [discriminate|].
  destruct (py_int text); [discriminate|]. now intros [= <-].
Qed.

Lemma token_value_cases name text :
  (exists v, token_value py_float name text = Ok v)
  \/ token_value py_float name text = Raise ValueError.
Proof.
  destruct (token_value py_float name text) as [v|e|] eqn:E.
  - left. eauto.
  - right. now rewrite (token_value_raise _ _ _ E).
  - unfold token_value in E. destruct (String.eqb name "number");
      [|discriminate]. destruct (existsb _ text); [discriminate|].
    destruct (py_int text); discriminate.
Qed.

(** Decoding fails exactly on a text of the number rule that has no dot and
    more digits than [int] converts. *)
Lemma value_error_iff characters position name n :
  first_match patterns characters position = Some (name, n) ->
  token_value py_float name (firstn n (skipn position characters))
  = Raise ValueError
  <-> name = "number"
      /\ existsb (is_char ".") (firstn n (skipn position characters)) = false
      /\ int_max_str_digits < n.
Proof.
  intros H.
  destruct (first_match_bounds _ _ _ _ H) as (Hn1 & Hn2 & _).
  assert (Hlen : List.length (firstn n (skipn position characters)) = n).
  { rewrite length_firstn, length_skipn. lia. }
  unfold token_value.
  destruct (String.eqb_spec name "number") as [->|Hne];
    [|split; [discriminate|now intros [? _]]].
  destruct (existsb _ _) eqn:Hdot;
    [split; [discriminate|now intros (_ & ? & _)]|].
  destruct (first_match_in _ _ _ _ _ H) as (pattern & Hin & Hre).
  apply number_tag_pattern in Hin. subst pattern.
  destruct (number_pattern_chars _ _ Hre) as [_ Hc].
  pose proof (no_dot_all_digits _ Hc Hdot) as Hd.
  unfold py_int.
  destruct (firstn n (skipn position characters)) as [|a text] eqn:E;
    [simpl in Hlen; lia|].
  rewrite Hd, Hlen. cbn [andb].
  destruct (Nat.leb_spec n int_max_str_digits).
  - split; [discriminate|]. intros (_ & _ & ?). lia.
  - split; trivial. now repeat split.
Qed.

(** What a run of the loop that returns has appended. *)
Lemma tokenize_while_ok characters fuel :
  forall (tokens : list (token float)) start out,
    start <= List.length characters ->
    tokenize_while py_float fuel characters tokens start = Ok out ->
    exists new,
      out = tokens ++ new ++ [end_marker (List.length characters)]
      /\ Forall (lexed py_float characters) new
      /\ Forall (fun t => start <= position t
                          /\ position t < List.length characters) new
      /\ StronglySorted
           (fun a b => position a < position b) new.
Proof.
  induction fuel as [|fuel IH]; intros tokens start out Hle;
    rewrite tokenize_while_eq;
    destruct (Nat.ltb_spec start (List.length characters)) as [Hlt|Hge].
  - discriminate.
  - intros [= <-]. exists []. replace start with (List.length characters) by lia.
    repeat split; constructor.
  - destruct (first_match patterns characters start) as [[name n]|] eqn:Hfm;
      [|discriminate].
    destruct (first_match_bounds _ _ _ _ Hfm) as (Hn1 & Hn2 & _).
    destruct (String.eqb_spec name "error") as [->|Herr]; [discriminate|].
    destruct (token_value py_float name _) as [v| |] eqn:Hv; try discriminate.
    cbn [bind].
    destruct (String.eqb_spec name "whitespace") as [->|Hws]; cbn [negb];
      intros Hrun; apply IH in Hrun; try lia;
      destruct Hrun as (new & -> & Hlex & Hpos & Hsort).
    + exists new. repeat split; trivial.
      eapply Forall_impl; [|exact Hpos]. simpl. intros t Ht. lia.
    + exists (mkToken (Some name) start v :: new).
      rewrite <- app_assoc. repeat split; trivial.
      * constructor; trivial. exists name, n. simpl. auto.
      * constructor; [simpl; lia|].
        eapply Forall_impl; [|exact Hpos]. simpl. intros t Ht. lia.
      * constructor; trivial.
        eapply Forall_impl; [|exact Hpos]. simpl. intros t Ht. lia.
  - intros [= <-]. exists []. replace start with (List.length characters) by lia.
    repeat split; constructor.
Qed.

(** The loop, given as many rounds as there are characters left, returns,
    raises the syntax error or raises the [ValueError] of [int]; nothing
    else can happen. *)
Lemma tokenize_while_outcome characters fuel :
  forall (tokens : list (token float)) position,
    List.length characters - position <= fuel ->
    (exists out, tokenize_while py_float fuel characters tokens position = Ok out)
    \/ tokenize_while py_float fuel characters tokens position
       = Raise (Exception "Syntax error")
    \/ tokenize_while py_float fuel characters tokens position
       = Raise ValueError.
Proof.
  induction fuel as [|fuel IH]; intros tokens position Hfuel;
    rewrite tokenize_while_eq;
    destruct (Nat.ltb_spec position (List.length characters)) as [Hlt|Hge];
    eauto; [lia|].
  destruct (first_match patterns characters position) as [[name n]|] eqn:Hfm;
    [|now apply first_match_total in Hfm].
  destruct (first_match_bounds _ _ _ _ Hfm) as (Hn1 & Hn2 & _).
  destruct (String.eqb_spec name "error") as [->|Herr]; [right; now left|].
  destruct (token_value_cases name (firstn n (skipn position characters)))
    as [[v ->]| ->]; cbn [bind].
  - apply IH. lia.
  - right. now right.
Qed.

End TokenizerLoop.

(** * The budget of the parser is never exhausted *)

Section ParserBudget.

Context {float : Type}.

Implicit Types (tokens rest : list (token float)) (node : ast float).

Lemma refines_refl {A : Type} (r : result A) : refines r r.
Proof. now right. Qed.

Lemma bind_refines {A B : Type} (r r' : result A) (k k' : A -> result B) :
  refines r r' -> (forall a, refines (k a) (k' a)) ->
  refines (bind r k) (bind r' k').
Proof.
  intros [->| ->] Hk; [now left|].
  destruct r' as [a| |]; simpl; auto using refines_refl.
Qed.

Lemma parse_factor_n_S fuel tokens :
  parse_factor_n (S fuel) tokens =
  match tokens with
  | [] => Raise IndexError
  | token :: rest =>
      if tag_is token "number" then Ok (Number (value token), rest)
      else if tag_is token "(" then
        '(node, tokens1) <- parse_expression_n fuel rest ;;
        match tokens1 with
        | [] => Raise IndexError
        | closing :: rest1 =>
            if tag_is closing ")" then Ok (node, rest1)
            else Raise AssertionError
        end
      else Raise (Exception (unexpected token))
  end.
Proof. reflexivity. Qed.

Lemma parse_term_n_S fuel tokens :
  parse_term_n (S fuel) tokens =
  '(node, tokens1) <- parse_factor_n fuel tokens ;;
  parse_term_while_n fuel node tokens1.
Proof. reflexivity. Qed.

Lemma parse_term_while_n_S fuel node tokens :
  parse_term_while_n (S fuel) node tokens =
  match tokens with
  | [] => Raise IndexError
  | token :: rest =>
      match tag_in token ["*"; "/"] with
      | Some op =>
          '(right_node, tokens1) <- parse_factor_n fuel rest ;;
          parse_term_while_n fuel (BinaryOp op node right_node) tokens1
      | None => Ok (node, tokens)
      end
  end.
Proof. reflexivity. Qed.

Lemma parse_expression_n_S fuel tokens :
  parse_expression_n (S fuel) tokens =
  '(node, tokens1) <- parse_term_n fuel tokens ;;
  parse_expression_while_n fuel node tokens1.
Proof. reflexivity. Qed.

Lemma parse_expression_while_n_S fuel node tokens :
  parse_expression_while_n (S fuel) node tokens =
  match tokens with
  | [] => Raise IndexError
  | token :: rest =>
      match tag_in token ["+"; "-"] with
      | Some op =>
          '(right_node, tokens1) <- parse_term_n fuel rest ;;
          parse_expression_while_n fuel (BinaryOp op node right_node) tokens1
      | None => Ok (node, tokens)
      end
  end.
Proof. reflexivity. Qed.

(** A larger budget does not change an outcome that was reached. *)
Lemma budget_monotone fuel :
  forall fuel', fuel <= fuel' ->
    (forall tokens,
        refines (parse_factor_n fuel tokens) (parse_factor_n fuel' tokens))
    /\ (forall tokens,
        refines (parse_term_n fuel tokens) (parse_term_n fuel' tokens))
    /\ (forall node tokens,
        refines (parse_term_while_n fuel node tokens)
                (parse_term_while_n fuel' node tokens))
    /\ (forall tokens,
        refines (parse_expression_n fuel tokens)
                (parse_expression_n fuel' tokens))
    /\ (forall node tokens,
        refines (parse_expression_while_n fuel node tokens)
                (parse_expression_while_n fuel' node tokens)).
Proof.
  induction fuel as [|fuel IH]; intros fuel' Hle.
  - repeat split; intros; now left.
  - destruct fuel' as [|fuel']; [lia|].
    destruct (IH fuel' ltac:(lia)) as (Hf & Ht & Htw & He & Hew).
    repeat split; intros.
    + rewrite !parse_factor_n_S.
      destruct tokens as [|token rest]; [apply refines_refl|].
      destruct (tag_is token "number"); [apply refines_refl|].
      destruct (tag_is token "("); [|apply refines_refl].
      apply bind_refines; [apply He|].
      intros [n1 t1]. apply refines_refl.
    + rewrite !parse_term_n_S.
      apply bind_refines; [apply Hf|]. intros [n1 t1]. apply Htw.
    + rewrite !parse_term_while_n_S.
      destruct tokens as [|token rest]; [apply refines_refl|].
      destruct (tag_in token _); [|apply refines_refl].
      apply bind_refines; [apply Hf|]. intros [n1 t1]. apply Htw.
    + rewrite !parse_expression_n_S.
      apply bind_refines; [apply Ht|]. intros [n1 t1]. apply Hew.
    + rewrite !parse_expression_while_n_S.
      destruct tokens as [|token rest]; [apply refines_refl|].
      destruct (tag_in token _); [|apply refines_refl].
      apply bind_refines; [apply Ht|]. intros [n1 t1]. apply Hew.
Qed.

(** Inversion of a [bind] that returned. *)
Lemma bind_ok {A B : Type} (r : result A) (k : A -> result B) (b : B) :
  bind r k = Ok b -> exists a, r = Ok a /\ k a = Ok b.
Proof. destruct r; simpl; try discriminate. eauto. Qed.

(** Every grammar function that returns has consumed a token; a loop that
    returns has not produced tokens. *)
Lemma consumes fuel :
  (forall tokens node rest,
      parse_factor_n fuel tokens = Ok (node, rest) ->
      List.length rest < List.length tokens)
  /\ (forall tokens node rest,
      parse_term_n fuel tokens = Ok (node, rest) ->
      List.length rest < List.length tokens)
  /\ (forall node0 tokens node rest,
      parse_term_while_n fuel node0 tokens = Ok (node, rest) ->
      List.length rest <= List.length tokens)
  /\ (forall tokens node rest,
      parse_expression_n fuel tokens = Ok (node, rest) ->
      List.length rest < List.length tokens)
  /\ (forall node0 tokens node rest,
      parse_expression_while_n fuel node0 tokens = Ok (node, rest) ->
      List.length rest <= List.length tokens).
Proof.
  induction fuel as [|fuel (Hf & Ht & Htw & He & Hew)].
  - repeat split; intros; discriminate.
  - repeat split; intros *.
    + rewrite parse_factor_n_S.
      destruct tokens as [|token rest0]; [discriminate|].
      destruct (tag_is token "number"); [intros [= <- <-]; simpl; lia|].
      destruct (tag_is token "("); [|discriminate].
      intros H. apply bind_ok in H as ([n1 t1] & H1 & H2).
      apply He in H1.
      destruct t1 as [|closing rest1]; [discriminate|].
      destruct (tag_is closing ")"); [|discriminate].
      injection H2 as <- <-. simpl in *. lia.
    + rewrite parse_term_n_S.
      intros H. apply bind_ok in H as ([n1 t1] & H1 & H2).
      apply Hf in H1. apply Htw in H2. lia.
    + rewrite parse_term_while_n_S.
      destruct tokens as [|token rest0]; [discriminate|].
      destruct (tag_in token _); [|intros [= <- <-]; lia].
      intros H. apply bind_ok in H as ([n1 t1] & H1 & H2).
      apply Hf in H1. apply Htw in H2. simpl. lia.
    + rewrite parse_expression_n_S.
      intros H. apply bind_ok in H as ([n1 t1] & H1 & H2).
      apply Ht in H1. apply Hew in H2. lia.
    + rewrite parse_expression_while_n_S.
      destruct tokens as [|token rest0]; [discriminate|].
      destruct (tag_in token _); [|intros [= <- <-]; lia].
      intros H. apply bind_ok in H as ([n1 t1] & H1 & H2).
      apply Ht in H1. apply Hew in H2. simpl. lia.
Qed.

Lemma bind_in_budget {A B : Type} (r : result A) (k : A -> result B) :
  r <> OutOfFuel -> (forall a, r = Ok a -> k a <> OutOfFuel) ->
  bind r k <> OutOfFuel.
Proof. destruct r; simpl; auto. discriminate. Qed.

(** Three units of budget per token are enough. *)
Lemma enough_budget (n : nat) :
  forall tokens, List.length tokens <= n ->
    (forall fuel, 3 * n + 1 <= fuel ->
                  parse_factor_n fuel tokens <> OutOfFuel)
    /\ (forall fuel node, 3 * n + 1 <= fuel ->
                  parse_term_while_n fuel node tokens <> OutOfFuel)
    /\ (forall fuel, 3 * n + 2 <= fuel ->
                  parse_term_n fuel tokens <> OutOfFuel)
    /\ (forall fuel node, 3 * n + 1 <= fuel ->
                  parse_expression_while_n fuel node tokens <> OutOfFuel)
    /\ (forall fuel, 3 * n + 3 <= fuel ->
                  parse_expression_n fuel tokens <> OutOfFuel).
Proof.
  induction n as [|n IH]; intros tokens Hlen.
  - destruct tokens; [|simpl in Hlen; lia].
    assert (Hf : forall fuel, 1 <= fuel ->
                   parse_factor_n fuel (@nil (token float)) = Raise IndexError).
    { intros [|fuel] H; [lia|reflexivity]. }
    assert (Ht : forall fuel, 2 <= fuel ->
                   parse_term_n fuel (@nil (token float)) = Raise IndexError).
    { intros [|fuel] H; [lia|]. rewrite parse_term_n_S, Hf by lia. reflexivity. }
    repeat split; intros.
    + rewrite Hf by lia. discriminate.
    + destruct fuel; [lia|]. discriminate.
    + rewrite Ht by lia. discriminate.
    + destruct fuel; [lia|]. discriminate.
    + destruct fuel; [lia|]. rewrite parse_expression_n_S, Ht by lia. discriminate.
  - assert (Hfactor : forall fuel, 3 * S n + 1 <= fuel ->
                        parse_factor_n fuel tokens <> OutOfFuel).
    { intros [|fuel] Hfuel; [lia|]. rewrite parse_factor_n_S.
      destruct tokens as [|token rest]; [discriminate|].
      destruct (tag_is token "number"); [discriminate|].
      destruct (tag_is token "("); [|discriminate].
      simpl in Hlen.
      apply bind_in_budget.
      - apply (IH rest); lia.
      - intros [n1 [|closing rest1]] _; [discriminate|].
        destruct (tag_is closing ")"); discriminate. }
    assert (Htw : forall fuel node, 3 * S n + 1 <= fuel ->
                    parse_term_while_n fuel node tokens <> OutOfFuel).
    { intros [|fuel] node Hfuel; [lia|]. rewrite parse_term_while_n_S.
      destruct tokens as [|token rest]; [discriminate|].
      destruct (tag_in token _); [|discriminate].
      simpl in Hlen.
      apply bind_in_budget.
      - apply (IH rest); lia.
      - intros [n1 t1] H1. apply (proj1 (consumes fuel)) in H1.
        apply (IH t1); lia. }
    assert (Hterm : forall fuel, 3 * S n + 2 <= fuel ->
                      parse_term_n fuel tokens <> OutOfFuel).
    { intros [|fuel] Hfuel; [lia|]. rewrite parse_term_n_S.
      apply bind_in_budget.
      - apply Hfactor; lia.
      - intros [n1 t1] H1. apply (proj1 (consumes fuel)) in H1.
        apply (IH t1); lia. }
    assert (Hew : forall fuel node, 3 * S n + 1 <= fuel ->
                    parse_expression_while_n fuel node tokens <> OutOfFuel).
    { intros [|fuel] node Hfuel; [lia|]. rewrite parse_expression_while_n_S.
      destruct tokens as [|token rest]; [discriminate|].
      destruct (tag_in token _); [|discriminate].
      simpl in Hlen.
      apply bind_in_budget.
      - apply (IH rest); lia.
      - intros [n1 t1] H1. apply (proj1 (proj2 (consumes fuel))) in H1.
        apply (IH t1); lia. }
    repeat split; trivial.
    intros [|fuel] Hfuel; [lia|]. rewrite parse_expression_n_S.
    apply bind_in_budget.
    + apply Hterm; lia.
    + intros [n1 t1] H1. apply (proj1 (proj2 (consumes fuel))) in H1.
      apply (IH t1); lia.
Qed.

Lemma refines_eq {A : Type} (r r' : result A) :
  refines r r' -> r <> OutOfFuel -> r' = r.
Proof. intros [->| ->] H; congruence. Qed.

(** With enough budget the outcome does not depend on the budget. *)
Lemma parse_factor_stable tokens fuel :
  3 * List.length tokens + 1 <= fuel ->
  parse_factor_n fuel tokens = parse_factor tokens.
Proof.
  intros H. unfold parse_factor, budget.
  pose proof (proj1 (enough_budget _ tokens (le_n _))) as He.
  pose proof (proj1 (budget_monotone _ fuel H) tokens) as H1.
  pose proof (proj1 (budget_monotone (3 * List.length tokens + 1)
                       (3 * List.length tokens + 3) ltac:(lia)) tokens) as H2.
  rewrite (refines_eq _ _ H1), (refines_eq _ _ H2); trivial; apply He; lia.
Qed.

Lemma parse_term_while_stable node tokens fuel :
  3 * List.length tokens + 1 <= fuel ->
  parse_term_while_n fuel node tokens = parse_term_while node tokens.
Proof.
  intros H. unfold parse_term_while, budget.
  pose proof (proj1 (proj2 (enough_budget _ tokens (le_n _)))) as He.
  pose proof (proj1 (proj2 (proj2 (budget_monotone _ fuel H))) node tokens) as H1.
  pose proof (proj1 (proj2 (proj2 (budget_monotone (3 * List.length tokens + 1)
                       (3 * List.length tokens + 3) ltac:(lia)))) node tokens) as H2.
  rewrite (refines_eq _ _ H1), (refines_eq _ _ H2); trivial; apply He; lia.
Qed.

Lemma parse_term_stable tokens fuel :
  3 * List.length tokens + 2 <= fuel ->
  parse_term_n fuel tokens = parse_term tokens.
Proof.
  intros H. unfold parse_term, budget.
  pose proof (proj1 (proj2 (proj2 (enough_budget _ tokens (le_n _))))) as He.
  pose proof (proj1 (proj2 (budget_monotone _ fuel H)) tokens) as H1.
  pose proof (proj1 (proj2 (budget_monotone (3 * List.length tokens + 2)
                       (3 * List.length tokens + 3) ltac:(lia))) tokens) as H2.
  rewrite (refines_eq _ _ H1), (refines_eq _ _ H2); trivial; apply He; lia.
Qed.

Lemma parse_expression_while_stable node tokens fuel :
  3 * List.length tokens + 1 <= fuel ->
  parse_expression_while_n fuel node tokens = parse_expression_while node tokens.
Proof.
  intros H. unfold parse_expression_while, budget.
  pose proof (proj1 (proj2 (proj2 (proj2 (enough_budget _ tokens (le_n _))))))
    as He.
  pose proof (proj2 (proj2 (proj2 (proj2 (budget_monotone _ fuel H)))) node tokens)
    as H1.
  pose proof (proj2 (proj2 (proj2 (proj2 (budget_monotone (3 * List.length tokens + 1)
                       (3 * List.length tokens + 3) ltac:(lia))))) node tokens) as H2.
  rewrite (refines_eq _ _ H1), (refines_eq _ _ H2); trivial; apply He; lia.
Qed.

Lemma parse_expression_stable tokens fuel :
  3 * List.length tokens + 3 <= fuel ->
  parse_expression_n fuel tokens = parse_expression tokens.
Proof.
  intros H. unfold parse_expression, budget.
  pose proof (proj2 (proj2 (proj2 (proj2 (enough_budget _ tokens (le_n _))))))
    as He.
  pose proof (proj1 (proj2 (proj2 (proj2 (budget_monotone _ fuel H)))) tokens)
    as H1.
  apply (refines_eq _ _ H1). apply He. lia.
Qed.

End ParserBudget.

(** * The grammar functions as the source writes them *)

Section ParserEquations.

Context {float : Type}.

Implicit Types (tokens rest : list (token float)) (node : ast float).

Lemma parse_factor_consumes tokens node rest :
  parse_factor tokens = Ok (node, rest) ->
  List.length rest < List.length tokens.
Proof. apply (consumes (budget tokens)). Qed.

Lemma parse_term_consumes tokens node rest :
  parse_term tokens = Ok (node, rest) ->
  List.length rest < List.length tokens.
Proof. apply (consumes (budget tokens)). Qed.

Lemma parse_expression_consumes tokens node rest :
  parse_expression tokens = Ok (node, rest) ->
  List.length rest < List.length tokens.
Proof. apply (consumes (budget tokens)). Qed.

Lemma parse_factor_eq tokens :
  parse_factor tokens =
  match tokens with
  | [] => Raise IndexError
  | token :: rest =>
      if tag_is token "number" then Ok (Number (value token), rest)
      else if tag_is token "(" then
        '(node, tokens1) <- parse_expression rest ;;
        match tokens1 with
        | [] => Raise IndexError
        | closing :: rest1 =>
            if tag_is closing ")" then Ok (node, rest1)
            else Raise AssertionError
        end
      else Raise (Exception (unexpected token))
  end.
Proof.
  unfold parse_factor, budget.
  replace (3 * List.length tokens + 3) with (S (3 * List.length tokens + 2))
    by lia.
  rewrite parse_factor_n_S.
  destruct tokens as [|token rest]; trivial.
  rewrite parse_expression_stable by (cbn [List.length]; lia). reflexivity.
Qed.

Lemma parse_term_eq tokens :
  parse_term tokens =
  '(node, tokens1) <- parse_factor tokens ;; parse_term_while node tokens1.
Proof.
  unfold parse_term, budget.
  replace (3 * List.length tokens + 3) with (S (3 * List.length tokens + 2))
    by lia.
  rewrite parse_term_n_S, parse_factor_stable by lia.
  destruct (parse_factor tokens) as [[n1 t1]| |] eqn:E; trivial.
  apply parse_factor_consumes in E. cbn [bind].
  apply parse_term_while_stable. cbn [List.length]. lia.
Qed.

Lemma parse_term_while_eq node tokens :
  parse_term_while node tokens =
  match tokens with
  | [] => Raise IndexError
  | token :: rest =>
      match tag_in token ["*"; "/"] with
      | Some op =>
          '(right_node, tokens1) <- parse_factor rest ;;
          parse_term_while (BinaryOp op node right_node) tokens1
      | None => Ok (node, tokens)
      end
  end.
Proof.
  unfold parse_term_while at 1. unfold budget.
  replace (3 * List.length tokens + 3) with (S (3 * List.length tokens + 2))
    by lia.
  rewrite parse_term_while_n_S.
  destruct tokens as [|token rest]; trivial.
  destruct (tag_in token _); trivial.
  rewrite parse_factor_stable by (cbn [List.length]; lia).
  destruct (parse_factor rest) as [[n1 t1]| |] eqn:E; trivial.
  apply parse_factor_consumes in E. cbn [bind].
  apply parse_term_while_stable. cbn [List.length]. lia.
Qed.

Lemma parse_expression_eq tokens :
  parse_expression tokens =
  '(node, tokens1) <- parse_term tokens ;; parse_expression_while node tokens1.
Proof.
  unfold parse_expression, budget.
  replace (3 * List.length tokens + 3) with (S (3 * List.length tokens + 2))
    by lia.
  rewrite parse_expression_n_S, parse_term_stable by lia.
  destruct (parse_term tokens) as [[n1 t1]| |] eqn:E; trivial.
  apply parse_term_consumes in E. cbn [bind].
  apply parse_expression_while_stable. cbn [List.length]. lia.
Qed.

Lemma parse_expression_while_eq node tokens :
  parse_expression_while node tokens =
  match tokens with
  | [] => Raise IndexError
  | token :: rest =>
      match tag_in token ["+"; "-"] with
      | Some op =>
          '(right_node, tokens1) <- parse_term rest ;;
          parse_expression_while (BinaryOp op node right_node) tokens1
      | None => Ok (node, tokens)
      end
  end.
Proof.
  unfold parse_expression_while at 1. unfold budget.
  replace (3 * List.length tokens + 3) with (S (3 * List.length tokens + 2))
    by lia.
  rewrite parse_expression_while_n_S.
  destruct tokens as [|token rest]; trivial.
  destruct (tag_in token _); trivial.
  rewrite parse_term_stable by (cbn [List.length]; lia).
  destruct (parse_term rest) as [[n1 t1]| |] eqn:E; trivial.
  apply parse_term_consumes in E. cbn [bind].
  apply parse_expression_while_stable. cbn [List.length]. lia.
Qed.

(** The parser always returns or raises. *)
Lemma parse_expression_total tokens : parse_expression tokens <> OutOfFuel.
Proof.
  unfold parse_expression, budget.
  apply (enough_budget _ tokens (le_n _)). lia.
Qed.

Lemma parse_statement_total tokens : parse_statement tokens <> OutOfFuel.
Proof.
  unfold parse_statement. destruct tokens as [|token rest]; [discriminate|].
  destruct (tag_is token "print"); [|apply parse_expression_total].
  apply bind_in_budget; [apply parse_expression_total|].
  intros [n1 t1] _. discriminate.
Qed.

Lemma parse_total tokens : parse tokens <> OutOfFuel.
Proof.
  unfold parse. apply bind_in_budget; [apply parse_statement_total|].
  intros [n1 t1] _. discriminate.
Qed.

End ParserEquations.

(** * The tokenizer: what it returns and when it fails *)

Section TokenizerClaims.

Context {float : Type} (py_float : list ascii -> float).

(** A position the loop stands at is reached by unrolling the loop. *)
Lemma scans_reach characters p :
  scans py_float characters p ->
  exists fuel (tokens : list (token float)),
    List.length characters - p <= fuel
    /\ tokenize py_float characters
       = tokenize_while py_float fuel characters tokens p.
Proof.
  induction 1 as [|p name n v Hs (fuel & tokens & Hfuel & Heq) Hlt Hfm Hne Hv].
  - exists (List.length characters), []. split; [lia|reflexivity].
  - destruct fuel as [|fuel]; [lia|].
    rewrite tokenize_while_eq in Heq.
    destruct (Nat.ltb_spec p (List.length characters)); [|lia].
    rewrite Hfm in Heq.
    destruct (String.eqb_spec name "error"); [contradiction|].
    rewrite Hv in Heq. cbn [bind] in Heq.
    destruct (first_match_bounds _ _ _ _ Hfm) as (Hn & _).
    eexists fuel, _. split; [lia|exact Heq].
Qed.

Lemma syntax_error_scanned characters fuel :
  forall (tokens : list (token float)) p,
    scans py_float characters p ->
    tokenize_while py_float fuel characters tokens p
    = Raise (Exception "Syntax error") ->
    exists q n, scans py_float characters q /\ q < List.length characters
                /\ first_match patterns characters q = Some ("error", n).
Proof.
  induction fuel as [|fuel IH]; intros tokens p Hs;
    rewrite tokenize_while_eq;
    destruct (Nat.ltb_spec p (List.length characters)) as [Hlt|Hge];
    try discriminate.
  destruct (first_match patterns characters p) as [[name n]|] eqn:Hfm;
    [|discriminate].
  destruct (String.eqb_spec name "error") as [->|Hne]; [eauto|].
  destruct (token_value_cases py_float name
              (firstn n (skipn p characters))) as [[v Hv]|Hv];
    rewrite Hv; cbn [bind]; [|discriminate].
  apply IH. econstructor; eauto.
Qed.

Lemma value_error_scanned characters fuel :
  forall (tokens : list (token float)) p,
    scans py_float characters p ->
    tokenize_while py_float fuel characters tokens p = Raise ValueError ->
    exists q name n,
      scans py_float characters q
      /\ first_match patterns characters q = Some (name, n)
      /\ token_value py_float name (firstn n (skipn q characters))
         = Raise ValueError.
Proof.
  induction fuel as [|fuel IH]; intros tokens p Hs;
    rewrite tokenize_while_eq;
    destruct (Nat.ltb_spec p (List.length characters)) as [Hlt|Hge];
    try discriminate.
  destruct (first_match patterns characters p) as [[name n]|] eqn:Hfm;
    [|discriminate].
  destruct (String.eqb_spec name "error") as [->|Hne]; [discriminate|].
  destruct (token_value_cases py_float name
              (firstn n (skipn p characters))) as [[v Hv]|Hv];
    rewrite Hv; cbn [bind]; [|eauto 7].
  apply IH. econstructor; eauto.
Qed.

Lemma grammar_tag name :
  In name (map snd patterns) -> name <> "whitespace" -> name <> "error" ->
  In name grammar_tags.
Proof.
  unfold patterns, grammar_tags. simpl. intros H Hws Herr.
  repeat (destruct H as [<-|H]; [tauto|]). contradiction.
Qed.

Lemma sorted_snoc {A : Type} (R : A -> A -> Prop) (l : list A) (x : A) :
  StronglySorted R l -> Forall (fun a => R a x) l ->
  StronglySorted R (l ++ [x]).
Proof.
  induction 1 as [|a l Hs IH Ha]; intros Hx; simpl.
  - repeat constructor.
  - inversion Hx; subst. constructor; auto.
    apply Forall_app. split; [assumption|]. repeat constructor. assumption.
Qed.

Lemma sorted_weaken {A : Type} (R R' : A -> A -> Prop) (l : list A) :
  (forall a b, R a b -> R' a b) ->
  StronglySorted R l -> StronglySorted R' l.
Proof.
  intros HR. induction 1 as [|a l Hs IH Ha]; constructor; trivial.
  eapply Forall_impl; [|exact Ha]. auto.
Qed.

(** The tokens of a successful run, in full. *)
Lemma tokenize_ok characters out :
  tokenize py_float characters = Ok out ->
  exists real,
    out = real ++ [end_marker (List.length characters)]
    /\ Forall (lexed py_float characters) real
    /\ Forall (fun t => position t < List.length characters) real
    /\ StronglySorted (fun a b => position a < position b) real.
Proof.
  intros H. apply tokenize_while_ok in H; [|lia].
  destruct H as (new & -> & Hlex & Hpos & Hsort).
  exists new. repeat split; trivial.
  eapply Forall_impl; [|exact Hpos]. simpl. tauto.
Qed.

End TokenizerClaims.

(** * Matching plain words and identifiers *)

Section Words.

Lemma match_word (w : list ascii) (s : list ascii) :
  match_branch (map (fun c => (is_char c, Once)) w) s =
  if starts_with w s then Some (List.length w) else None.
Proof.
  revert s; induction w as [|a w IH]; intros s; simpl; trivial.
  destruct s as [|b s]; trivial.
  unfold is_char at 1. destruct (Ascii.eqb a b); simpl; trivial.
  rewrite IH. now destruct (starts_with w s).
Qed.

Lemma first_match_skipn ps characters position :
  first_match ps characters position
  = first_match ps (skipn position characters) 0.
Proof.
  induction ps as [|[pattern name] ps IH]; [reflexivity|].
  cbn [first_match]. unfold re_match. rewrite skipn_0, IH. reflexivity.
Qed.

Lemma ident_start_not_number (c : ascii) :
  ident_start c = true -> digit c = false /\ is_char "." c = false.
Proof.
  destruct c as [[] [] [] [] [] [] [] []]; vm_compute; intros H;
    (discriminate H || (split; reflexivity)).
Qed.

(** At a letter or underscore that does not start the keyword, the
    identifier rule is the first to match, and it takes the whole run of
    identifier characters. *)
Lemma first_match_identifier (c : ascii) (w : list ascii) :
  ident_start c = true ->
  forallb ident_char w = true ->
  starts_with (str "print") (c :: w) = false ->
  first_match patterns (c :: w) 0 = Some ("identifier", S (List.length w)).
Proof.
  intros Hc Hw Hp.
  destruct (ident_start_not_number c Hc) as [Hd Hdot].
  unfold patterns, first_match, re_match, lit. rewrite skipn_0.
  unfold match_regex at 1. rewrite match_word, Hp.
  assert (Hnum : match_regex number_pattern (c :: w) = None).
  { unfold number_pattern, match_regex, match_branch.
    unfold span. rewrite Hd. rewrite !give_back_eq.
    cbn [Nat.ltb Nat.leb skipn]. now rewrite Hdot. }
  rewrite Hnum.
  unfold match_regex, match_branch. rewrite Hc.
  rewrite (give_back_greedy _ w 0 (span ident_char w) 0); [|lia|reflexivity].
  rewrite span_forallb by assumption. simpl. now rewrite Nat.add_0_r.
Qed.

End Words.

(** * The unit tests of the two modules, replayed on the model *)

Section UnitTests.

Context {float : Type} (py_float : list ascii -> float).

Example test_simple_token :
  Forall (fun c => exists rest,
              tokenize py_float [c]
              = Ok (mkToken (Some (string_of_list_ascii [c])) 0 (VStr [c])
                      :: rest))
         (str "+-*/()").
Proof. repeat constructor; eexists; reflexivity. Qed.

Example test_number_token :
  Forall (fun s => exists n,
              py_int s = Some n
              /\ tokenize py_float s
                 = Ok [mkToken (Some "number") 0 (VInt n);
                       end_marker (List.length s)])
         [str "1"; str "11"]
  /\ Forall (fun s => tokenize py_float s
                      = Ok [mkToken (Some "number") 0 (VFloat (py_float s));
                            end_marker (List.length s)])
            [str "1.1"; str "11.11"; str "11."; str ".11"].
Proof. split; repeat constructor; eexists; split; reflexivity. Qed.

Example test_multiple_tokens :
  tokenize py_float (str "1+2")
  = Ok [mkToken (Some "number") 0 (VInt 1);
        mkToken (Some "+") 1 (VStr (str "+"));
        mkToken (Some "number") 2 (VInt 2);
        end_marker 3].
Proof. reflexivity. Qed.

Example test_whitespace :
  tokenize py_float (str "1 + 2")
  = Ok [mkToken (Some "number") 0 (VInt 1);
        mkToken (Some "+") 2 (VStr (str "+"));
        mkToken (Some "number") 4 (VInt 2);
        end_marker 5].
Proof. reflexivity. Qed.

Example test_keywords :
  tokenize py_float (str "print")
  = Ok [mkToken (Some "print") 0 (VStr (str "print")); end_marker 5].
Proof. reflexivity. Qed.

Example test_identifier_tokens :
  Forall (fun s => tokenize py_float s
                   = Ok [mkToken (Some "identifier") 0 (VStr s);
                         end_marker (List.length s)])
         [str "x"; str "y"; str "z"; str "alpha"; str "beta"; str "gamma"].
Proof. repeat constructor. Qed.

Example test_error :
  tokenize py_float (str "$1+2") = Raise (Exception "Syntax error").
Proof. reflexivity. Qed.

Example test_parse_factor :
  (tokens <- tokenize py_float (str "(2+3)") ;; parse_factor tokens)
  = Ok (BinaryOp "+" (Number (VInt 2)) (Number (VInt 3)), [end_marker 5]).
Proof. reflexivity. Qed.

Example test_parse_term :
  (tokens <- tokenize py_float (str "2*4/6") ;; parse_term tokens)
  = Ok (BinaryOp "/" (BinaryOp "*" (Number (VInt 2)) (Number (VInt 4)))
          (Number (VInt 6)),
        [end_marker 5]).
Proof. reflexivity. Qed.

Example test_parse_statement :
  (tokens <- tokenize py_float (str "print 2*4") ;; parse_statement tokens)
  = Ok (Print (BinaryOp "*" (Number (VInt 2)) (Number (VInt 4))),
        [end_marker 9]).
Proof. reflexivity. Qed.

End UnitTests.

(** * Theorems about the tokenizer *)

Section TokenizerTheorems.

Context {float : Type} (py_float : list ascii -> float).


(** C5, amended.  [tokenize] fails with the syntax error exactly when its
    scan, which starts at position 0 and goes on at the end of every match,
    comes to stand at a position that only the catch-all "error" rule
    matches; a position inside an earlier match does not count.  It fails at
    once: whatever tokens were collected and whatever follows, the round of
    the loop at that position raises, so no token list is returned.  The
    only other failure is the [ValueError] of [int], raised when the scan
    comes to an integer literal of more than [int_max_str_digits] digits.
    In particular ["$1+2"] fails with the syntax error. *)
Theorem syntax_error_exactly_on_illegal_character :
  (forall characters,
      tokenize py_float characters = Raise (Exception "Syntax error")
      <-> exists p, scans py_float characters p
                    /\ p < List.length characters
                    /\ only_error_rule characters p)
  /\ (forall characters fuel (tokens : list (token float)) p,
         p < List.length characters ->
         only_error_rule characters p ->
         tokenize_while py_float (S fuel) characters tokens p
         = Raise (Exception "Syntax error"))
  /\ (forall characters,
         tokenize py_float characters = Raise ValueError
         <-> exists p n,
               scans py_float characters p
               /\ first_match patterns characters p = Some ("number", n)
               /\ existsb (is_char ".") (slice characters p n) = false
               /\ int_max_str_digits < n)
  /\ (forall characters,
         (exists out, tokenize py_float characters = Ok out)
         \/ tokenize py_float characters = Raise (Exception "Syntax error")
         \/ tokenize py_float characters = Raise ValueError)
  /\ tokenize py_float (str "$1+2") = Raise (Exception "Syntax error").
Proof.
  assert (Hstep : forall characters fuel (tokens : list (token float)) p,
             p < List.length characters ->
             only_error_rule characters p ->
             tokenize_while py_float (S fuel) characters tokens p
             = Raise (Exception "Syntax error")).
  { intros characters fuel tokens p Hlt Herr.
    apply first_match_error in Herr as [n Hfm].
    rewrite tokenize_while_eq.
    destruct (Nat.ltb_spec p (List.length characters)); [|lia].
    now rewrite Hfm. }
  split; [|split; [|split; [|split]]].
  - intros characters. split.
    + intros H. apply syntax_error_scanned in H; [|constructor].
      destruct H as (q & n & Hs & Hlt & Hfm).
      exists q. repeat split; trivial; apply first_match_error; eauto.
    + intros (p & Hs & Hlt & Herr).
      destruct (scans_reach py_float _ _ Hs) as (fuel & tokens & Hfuel & ->).
      destruct fuel as [|fuel]; [lia|]. now apply Hstep.
  - exact Hstep.
  - intros characters. unfold slice. split.
    + intros H. apply value_error_scanned in H; [|constructor].
      destruct H as (q & name & n & Hs & Hfm & Hv).
      apply (value_error_iff py_float _ _ _ _ Hfm) in Hv as (-> & Hdot & Hn).
      now exists q, n.
    + intros (p & n & Hs & Hfm & Hdot & Hn).
      destruct (first_match_bounds _ _ _ _ Hfm) as (Hn1 & Hn2 & _).
      destruct (scans_reach py_float _ _ Hs) as (fuel & tokens & Hfuel & ->).
      destruct fuel as [|fuel]; [lia|].
      rewrite tokenize_while_eq.
      destruct (Nat.ltb_spec p (List.length characters)); [|lia].
      rewrite Hfm. cbn [String.eqb Ascii.eqb Bool.eqb].
      now rewrite (proj2 (value_error_iff py_float _ _ _ _ Hfm)).
  - intros characters. apply tokenize_while_outcome. lia.
  - reflexivity.
Qed.

(** The positions of C5 are those at which the loop stands.  In ["1."] the
    dot alone would only match the catch-all rule, but the loop never stands
    there: the number rule has taken it, and the text is accepted. *)
Remark dot_inside_number_not_scanned :
  tokenize py_float (str "1.")
  = Ok [mkToken (Some "number") 0 (VFloat (py_float (str "1.")));
        end_marker 2]
  /\ only_error_rule (str "1.") 1
  /\ ~ scans py_float (str "1.") 1.
Proof.
  split; [reflexivity|]. split.
  - apply first_match_error. now exists 1.
  - assert (H : forall q, scans py_float (str "1.") q -> q = 0 \/ 2 <= q).
    { induction 1 as [|p name n v Hs [-> |Hp] Hlt Hfm Hne Hv];
        [now left|right..].
      - vm_compute in Hfm. injection Hfm as <- <-. lia.
      - lia. }
    intros Hs. apply H in Hs. lia.
Qed.

(** C7. When [tokenize] returns, the positions of the tokens never
    decrease along the list, and the list is made of tokens that carry
    grammar tags followed by one end marker: its tag is [None], which is no
    grammar tag, its value is absent, and its position is the length of the
    input. *)
Theorem tokens_ordered_and_end_marked characters out :
  tokenize py_float characters = Ok out ->
  StronglySorted (fun a b => position a <= position b) out
  /\ exists real,
       out = real ++ [mkToken None (List.length characters) VNone]
       /\ Forall (fun t => exists name,
                      tag t = Some name /\ In name grammar_tags) real.
Proof.
  intros H. destruct (tokenize_ok py_float _ _ H) as (real & -> & Hlex & Hpos & Hs).
  split.
  - apply sorted_snoc.
    + eapply sorted_weaken; [|exact Hs]. simpl. intros; lia.
    + eapply Forall_impl; [|exact Hpos]. simpl. intros; lia.
  - exists real. split; [reflexivity|].
    eapply Forall_impl; [|exact Hlex].
    intros t (name & n & Ht & Hfm & Hws & Herr & _).
    exists name. split; trivial.
    apply grammar_tag; trivial.
    now destruct (first_match_bounds _ _ _ _ Hfm) as (_ & _ & ?).
Qed.

(** C9, amended.  Keyword matching requires no word boundary: when the
    input is ["print"] followed by identifier characters that begin with a
    letter or an underscore and do not themselves begin with ["print"],
    [tokenize] returns the keyword token at position 0 and then one
    identifier token for the remaining characters. *)
Theorem keyword_prefix_split (c : ascii) (w : list ascii) :
  ident_start c = true ->
  forallb ident_char w = true ->
  starts_with (str "print") (c :: w) = false ->
  tokenize py_float (str "print" ++ c :: w)
  = Ok [mkToken (Some "print") 0 (VStr (str "print"));
        mkToken (Some "identifier") 5 (VStr (c :: w));
        end_marker (6 + List.length w)].
Proof.
  intros Hc Hw Hp. unfold tokenize.
  change (str "print" ++ c :: w)
    with ("p" :: "r" :: "i" :: "n" :: "t" :: c :: w)%char.
  cbn [List.length].
  rewrite tokenize_while_eq. cbn [List.length Nat.ltb Nat.leb].
  change (first_match patterns ("p" :: "r" :: "i" :: "n" :: "t" :: c :: w)%char 0)
    with (Some ("print", 5)).
  cbn [String.eqb Ascii.eqb Bool.eqb token_value bind negb firstn skipn app
       Nat.add].
  rewrite tokenize_while_eq. cbn [List.length Nat.ltb Nat.leb].
  rewrite first_match_skipn. cbn [skipn].
  rewrite (first_match_identifier c w Hc Hw Hp).
  cbn [String.eqb Ascii.eqb Bool.eqb token_value bind negb firstn skipn app].
  rewrite firstn_all.
  rewrite tokenize_while_eq. cbn [List.length Nat.add].
  destruct (Nat.ltb_spec (S (S (S (S (S (S (List.length w)))))))
              (S (S (S (S (S (S (List.length w)))))))); [lia|].
  reflexivity.
Qed.

End TokenizerTheorems.

(** * Facts about the grammar functions *)

Section ParserFacts.

Context {float : Type}.

Implicit Types (tokens rest : list (token float)) (node : ast float)
         (t : token float).

Lemma tag_in_some t names op :
  tag_in t names = Some op -> tag t = Some op /\ In op names.
Proof.
  unfold tag_in. destruct (tag t) as [x|]; [|discriminate].
  destruct (existsb _ names) eqn:E; [|discriminate].
  intros [= <-]. split; trivial.
  apply existsb_exists in E as (y & Hy & Hxy).
  apply String.eqb_eq in Hxy. now subst.
Qed.

Lemma tag_in_tag t names x :
  tag t = Some x ->
  tag_in t names = if existsb (String.eqb x) names then Some x else None.
Proof. unfold tag_in. now intros ->. Qed.

(** An additive operator is no multiplicative operator. *)
Lemma additive_not_multiplicative t op :
  tag_in t ["+"; "-"] = Some op -> tag_in t ["*"; "/"] = None.
Proof.
  intros H. apply tag_in_some in H as [Ht Hin].
  rewrite (tag_in_tag _ _ _ Ht).
  destruct Hin as [<-|[<-|[]]]; reflexivity.
Qed.

Lemma paren_not_number t : tag_is t "(" = true -> tag_is t "number" = false.
Proof.
  unfold tag_is. destruct (tag t) as [x|]; [|discriminate].
  intros H. apply String.eqb_eq in H. now subst.
Qed.

Lemma parse_factor_number t rest :
  tag_is t "number" = true ->
  parse_factor (t :: rest) = Ok (Number (value t), rest).
Proof. intros H. now rewrite parse_factor_eq, H. Qed.

(** A number followed by a token that is no multiplicative operator is a
    whole term. *)
Lemma parse_term_number t next rest :
  tag_is t "number" = true ->
  tag_in next ["*"; "/"] = None ->
  parse_term (t :: next :: rest) = Ok (Number (value t), next :: rest).
Proof.
  intros Ht Hnext.
  rewrite parse_term_eq, parse_factor_number by assumption. cbn [bind].
  now rewrite parse_term_while_eq, Hnext.
Qed.

(** The loop of [parse_term] over a chain of numbers: a left fold. *)
Lemma parse_term_while_chain pairs :
  forall node stop rest,
    Forall (op_number ["*"; "/"]) pairs ->
    tag_in stop ["*"; "/"] = None ->
    parse_term_while node (chain pairs ++ stop :: rest)
    = Ok (fold_left fold_op pairs node, stop :: rest).
Proof.
  induction pairs as [|[o n] pairs IH]; intros node stop rest Hp Hs.
  - cbn [chain flat_map app]. now rewrite parse_term_while_eq, Hs.
  - inversion Hp as [|p ps [[op Ho] Hn] Hps]; subst. simpl in Ho, Hn.
    cbn [chain flat_map fst snd app].
    rewrite parse_term_while_eq, Ho, parse_factor_number by assumption.
    cbn [bind]. fold (chain pairs). rewrite IH by assumption.
    cbn [fold_left]. unfold fold_op. cbn [fst snd].
    apply tag_in_some in Ho as [-> _]. reflexivity.
Qed.

(** The loop of [parse_expression] over a chain of numbers. *)
Lemma parse_expression_while_chain pairs :
  forall node stop rest,
    Forall (op_number ["+"; "-"]) pairs ->
    tag_in stop ["+"; "-"] = None ->
    tag_in stop ["*"; "/"] = None ->
    parse_expression_while node (chain pairs ++ stop :: rest)
    = Ok (fold_left fold_op pairs node, stop :: rest).
Proof.
  induction pairs as [|[o n] pairs IH]; intros node stop rest Hp Hs Hs'.
  - cbn [chain flat_map app]. now rewrite parse_expression_while_eq, Hs.
  - inversion Hp as [|p ps [[op Ho] Hn] Hps]; subst. simpl in Ho, Hn.
    cbn [chain flat_map fst snd app].
    rewrite parse_expression_while_eq, Ho.
    assert (Hterm : parse_term (n :: chain pairs ++ stop :: rest)
                    = Ok (Number (value n), chain pairs ++ stop :: rest)).
    { destruct pairs as [|[o' n'] pairs'].
      - cbn [chain flat_map app]. now apply parse_term_number.
      - cbn [chain flat_map fst snd app].
        apply parse_term_number; trivial.
        inversion Hps as [|p' ps' [[op' Ho'] _] _]; subst.
        eapply additive_not_multiplicative; eassumption. }
    fold (chain pairs). rewrite Hterm. cbn [bind].
    rewrite IH by assumption.
    cbn [fold_left]. unfold fold_op. cbn [fst snd].
    apply tag_in_some in Ho as [-> _]. reflexivity.
Qed.

Lemma bind_raise {A B : Type} (r : result A) (k : A -> result B) (e : exn) :
  bind r k = Raise e ->
  r = Raise e \/ exists a, r = Ok a /\ k a = Raise e.
Proof.
  destruct r as [a|e'|]; simpl; intros H.
  - right. exists a. now split.
  - injection H as ->. now left.
  - discriminate H.
Qed.

(** What a grammar function leaves is the end of what it was given. *)
Lemma leaves_suffix fuel :
  (forall tokens node rest,
      parse_factor_n fuel tokens = Ok (node, rest) ->
      exists pre, tokens = pre ++ rest)
  /\ (forall tokens node rest,
      parse_term_n fuel tokens = Ok (node, rest) ->
      exists pre, tokens = pre ++ rest)
  /\ (forall node0 tokens node rest,
      parse_term_while_n fuel node0 tokens = Ok (node, rest) ->
      exists pre, tokens = pre ++ rest)
  /\ (forall tokens node rest,
      parse_expression_n fuel tokens = Ok (node, rest) ->
      exists pre, tokens = pre ++ rest)
  /\ (forall node0 tokens node rest,
      parse_expression_while_n fuel node0 tokens = Ok (node, rest) ->
      exists pre, tokens = pre ++ rest).
Proof.
  induction fuel as [|fuel (Hf & Ht & Htw & He & Hew)].
  - repeat split; intros; discriminate.
  - repeat split; intros *.
    + rewrite parse_factor_n_S.
      destruct tokens as [|token rest0]; [discriminate|].
      destruct (tag_is token "number");
        [intros [= <- <-]; now exists [token]|].
      destruct (tag_is token "("); [|discriminate].
      intros H. apply bind_ok in H as ([n1 t1] & H1 & H2).
      apply He in H1 as [pre ->].
      destruct t1 as [|closing rest1]; [discriminate|].
      destruct (tag_is closing ")"); [|discriminate].
      injection H2 as <- <-. exists (token :: pre ++ [closing]).
      simpl. now rewrite <- app_assoc.
    + rewrite parse_term_n_S.
      intros H. apply bind_ok in H as ([n1 t1] & H1 & H2).
      apply Hf in H1 as [pre ->]. apply Htw in H2 as [pre' ->].
      exists (pre ++ pre'). now rewrite app_assoc.
    + rewrite parse_term_while_n_S.
      destruct tokens as [|token rest0]; [discriminate|].
      destruct (tag_in token _); [|intros [= <- <-]; now exists []].
      intros H. apply bind_ok in H as ([n1 t1] & H1 & H2).
      apply Hf in H1 as [pre ->]. apply Htw in H2 as [pre' ->].
      exists (token :: pre ++ pre'). simpl. now rewrite app_assoc.
    + rewrite parse_expression_n_S.
      intros H. apply bind_ok in H as ([n1 t1] & H1 & H2).
      apply Ht in H1 as [pre ->]. apply Hew in H2 as [pre' ->].
      exists (pre ++ pre'). now rewrite app_assoc.
    + rewrite parse_expression_while_n_S.
      destruct tokens as [|token rest0]; [discriminate|].
      destruct (tag_in token _); [|intros [= <- <-]; now exists []].
      intros H. apply bind_ok in H as ([n1 t1] & H1 & H2).
      apply Ht in H1 as [pre ->]. apply Hew in H2 as [pre' ->].
      exists (token :: pre ++ pre'). simpl. now rewrite app_assoc.
Qed.

Lemma parse_failure_incl tokens tokens' e :
  incl tokens tokens' -> parse_failure tokens e -> parse_failure tokens' e.
Proof.
  intros Hi [(t & Hin & H)|H]; [left|now right].
  exists t. split; auto.
Qed.

(** Every failure of a grammar function is one of the three. *)
Lemma failures_classified fuel :
  (forall tokens e,
      parse_factor_n fuel tokens = Raise e -> parse_failure tokens e)
  /\ (forall tokens e,
      parse_term_n fuel tokens = Raise e -> parse_failure tokens e)
  /\ (forall node0 tokens e,
      parse_term_while_n fuel node0 tokens = Raise e -> parse_failure tokens e)
  /\ (forall tokens e,
      parse_expression_n fuel tokens = Raise e -> parse_failure tokens e)
  /\ (forall node0 tokens e,
      parse_expression_while_n fuel node0 tokens = Raise e ->
      parse_failure tokens e).
Proof.
  induction fuel as [|fuel (Hf & Ht & Htw & He & Hew)].
  - repeat split; intros; discriminate.
  - destruct (leaves_suffix fuel) as (Sf & St & _).
    repeat split; intros *.
    + rewrite parse_factor_n_S.
      destruct tokens as [|token rest0];
        [intros [= <-]; right; now right|].
      destruct (tag_is token "number") eqn:Hnum; [discriminate|].
      destruct (tag_is token "(") eqn:Hpar.
      * intros H. apply bind_raise in H as [H|([n1 t1] & H1 & H2)].
        -- apply He in H. eapply parse_failure_incl; [|exact H].
           apply incl_tl, incl_refl.
        -- destruct t1 as [|closing rest1];
             [injection H2 as <-; right; now right|].
           destruct (tag_is closing ")"); [discriminate|].
           injection H2 as <-. right; now left.
      * intros [= <-]. left. exists token. repeat split; trivial. now left.
    + rewrite parse_term_n_S.
      intros H. apply bind_raise in H as [H|([n1 t1] & H1 & H2)]; [auto|].
      apply Sf in H1 as [pre ->]. apply Htw in H2.
      eapply parse_failure_incl; [|exact H2]. apply incl_appr, incl_refl.
    + rewrite parse_term_while_n_S.
      destruct tokens as [|token rest0];
        [intros [= <-]; right; now right|].
      destruct (tag_in token _); [|discriminate].
      intros H. apply bind_raise in H as [H|([n1 t1] & H1 & H2)].
      * apply Hf in H. eapply parse_failure_incl; [|exact H].
        apply incl_tl, incl_refl.
      * apply Sf in H1 as [pre ->]. apply Htw in H2.
        eapply parse_failure_incl; [|exact H2].
        apply incl_tl, incl_appr, incl_refl.
    + rewrite parse_expression_n_S.
      intros H. apply bind_raise in H as [H|([n1 t1] & H1 & H2)]; [auto|].
      apply St in H1 as [pre ->]. apply Hew in H2.
      eapply parse_failure_incl; [|exact H2]. apply incl_appr, incl_refl.
    + rewrite parse_expression_while_n_S.
      destruct tokens as [|token rest0];
        [intros [= <-]; right; now right|].
      destruct (tag_in token _); [|discriminate].
      intros H. apply bind_raise in H as [H|([n1 t1] & H1 & H2)].
      * apply Ht in H. eapply parse_failure_incl; [|exact H].
        apply incl_tl, incl_refl.
      * apply St in H1 as [pre ->]. apply Hew in H2.
        eapply parse_failure_incl; [|exact H2].
        apply incl_tl, incl_appr, incl_refl.
Qed.

Lemma terminated_cons t rest :
  terminated (t :: rest) -> tag t <> None -> terminated rest.
Proof.
  intros (body & e & Heq & He) Ht.
  destruct body as [|b body]; simpl in Heq; injection Heq as -> ->.
  - contradiction.
  - now exists body, e.
Qed.

Lemma terminated_not_nil : ~ terminated (@nil (token float)).
Proof. intros (body & e & Heq & _). now destruct body. Qed.

Lemma tag_is_some t name : tag_is t name = true -> tag t <> None.
Proof. unfold tag_is. now destruct (tag t). Qed.

Lemma tag_in_not_none t names op : tag_in t names = Some op -> tag t <> None.
Proof. unfold tag_in. now destruct (tag t). Qed.

(** On a list that ends with the end marker the grammar functions never run
    out of tokens, and what they leave still ends with the end marker. *)
Lemma end_marker_kept fuel :
  (forall tokens, terminated tokens ->
      parse_factor_n fuel tokens <> Raise IndexError
      /\ forall node rest, parse_factor_n fuel tokens = Ok (node, rest) ->
                           terminated rest)
  /\ (forall tokens, terminated tokens ->
      parse_term_n fuel tokens <> Raise IndexError
      /\ forall node rest, parse_term_n fuel tokens = Ok (node, rest) ->
                           terminated rest)
  /\ (forall node0 tokens, terminated tokens ->
      parse_term_while_n fuel node0 tokens <> Raise IndexError
      /\ forall node rest,
           parse_term_while_n fuel node0 tokens = Ok (node, rest) ->
           terminated rest)
  /\ (forall tokens, terminated tokens ->
      parse_expression_n fuel tokens <> Raise IndexError
      /\ forall node rest, parse_expression_n fuel tokens = Ok (node, rest) ->
                           terminated rest)
  /\ (forall node0 tokens, terminated tokens ->
      parse_expression_while_n fuel node0 tokens <> Raise IndexError
      /\ forall node rest,
           parse_expression_while_n fuel node0 tokens = Ok (node, rest) ->
           terminated rest).
Proof.
  assert (Hbind : forall (r : result (ast float * list (token float)))
                         (k : ast float * list (token float) ->
                              result (ast float * list (token float))),
             (r <> Raise IndexError
              /\ forall node rest, r = Ok (node, rest) -> terminated rest) ->
             (forall node rest, terminated rest ->
                 k (node, rest) <> Raise IndexError
                 /\ forall node' rest', k (node, rest) = Ok (node', rest') ->
                                        terminated rest') ->
             bind r k <> Raise IndexError
             /\ forall node rest, bind r k = Ok (node, rest) ->
                                  terminated rest).
  { intros r k [Hr1 Hr2] Hk. destruct r as [[n1 t1]|e|]; simpl.
    - apply Hk. eapply Hr2. reflexivity.
    - split; [exact Hr1|discriminate].
    - split; discriminate. }
  induction fuel as [|fuel (Hf & Ht & Htw & He & Hew)].
  - split; [|split; [|split; [|split]]]; intros; split; intros; discriminate.
  - split; [|split; [|split; [|split]]]; intros * Hterm;
      rewrite ?parse_factor_n_S, ?parse_term_n_S, ?parse_term_while_n_S,
        ?parse_expression_n_S, ?parse_expression_while_n_S.
    + destruct tokens as [|token rest0]; [now apply terminated_not_nil in Hterm|].
      destruct (tag_is token "number") eqn:Hnum.
      { split; [discriminate|]. intros node rest [= <- <-].
        eapply terminated_cons; eauto using tag_is_some. }
      destruct (tag_is token "(") eqn:Hpar; [|split; discriminate].
      apply Hbind.
      * apply He. eapply terminated_cons; eauto using tag_is_some.
      * intros node rest Hrest.
        destruct rest as [|closing rest1];
          [now apply terminated_not_nil in Hrest|].
        destruct (tag_is closing ")") eqn:Hc; [|split; discriminate].
        split; [discriminate|]. intros node' rest' [= <- <-].
        eapply terminated_cons; eauto using tag_is_some.
    + apply Hbind; [now apply Hf|]. intros node rest Hrest. now apply Htw.
    + destruct tokens as [|token rest0]; [now apply terminated_not_nil in Hterm|].
      destruct (tag_in token _) eqn:Hop.
      * apply Hbind.
        -- apply Hf. eapply terminated_cons; eauto using tag_in_not_none.
        -- intros node rest Hrest. now apply Htw.
      * split; [discriminate|]. now intros node rest [= <- <-].
    + apply Hbind; [now apply Ht|]. intros node rest Hrest. now apply Hew.
    + destruct tokens as [|token rest0]; [now apply terminated_not_nil in Hterm|].
      destruct (tag_in token _) eqn:Hop.
      * apply Hbind.
        -- apply Ht. eapply terminated_cons; eauto using tag_in_not_none.
        -- intros node rest Hrest. now apply Hew.
      * split; [discriminate|]. now intros node rest [= <- <-].
Qed.

(** The failures of [parse]. *)
Lemma parse_raises tokens e :
  parse tokens = Raise e -> parse_failure tokens e.
Proof.
  unfold parse. intros H.
  apply bind_raise in H as [H|([n1 t1] & _ & H)]; [|discriminate H].
  unfold parse_statement in H.
  destruct tokens as [|token rest]; [injection H as <-; right; now right|].
  destruct (tag_is token "print").
  - apply bind_raise in H as [H|([n2 t2] & _ & H)]; [|discriminate H].
    apply (failures_classified (budget rest)) in H.
    eapply parse_failure_incl; [|exact H]. apply incl_tl, incl_refl.
  - now apply (failures_classified (budget (token :: rest))) in H.
Qed.

Lemma parse_never_runs_out tokens :
  terminated tokens -> parse tokens <> Raise IndexError.
Proof.
  intros Hterm H. unfold parse in H.
  apply bind_raise in H as [H|([n1 t1] & _ & H)]; [|discriminate H].
  unfold parse_statement in H.
  destruct tokens as [|token rest]; [now apply terminated_not_nil in Hterm|].
  destruct (tag_is token "print") eqn:Hp.
  - apply bind_raise in H as [H|([n2 t2] & _ & H)]; [|discriminate H].
    revert H. apply (end_marker_kept (budget rest)).
    eapply terminated_cons; eauto using tag_is_some.
  - revert H. now apply (end_marker_kept (budget (token :: rest))).
Qed.

End ParserFacts.

(** * Theorems about the parser *)

Section ParserTheorems.

Context {float : Type} (py_float : list ascii -> float).

Implicit Types (tokens rest : list (token float)) (node : ast float)
         (t : token float).

(** C1. Multiplication and division bind tighter than addition and
    subtraction: [parse(tokenize("1+2*4"))] is the tree
    [+(1, *(2, 4))]; and for all numbers [a], [b], [c], an additive operator
    followed by a multiplicative one parses as [a op1 (b op2 c)], because
    [parse_expression] takes a whole term before it folds [+] and [-]. *)
Theorem multiplication_binds_tighter :
  (tokens <- tokenize py_float (str "1+2*4") ;; parse tokens)
  = Ok (BinaryOp "+" (Number (VInt 1))
          (BinaryOp "*" (Number (VInt 2)) (Number (VInt 4))))
  /\ forall a plus b times c stop rest op1 op2,
       tag_is a "number" = true ->
       tag_in plus ["+"; "-"] = Some op1 ->
       tag_is b "number" = true ->
       tag_in times ["*"; "/"] = Some op2 ->
       tag_is c "number" = true ->
       tag_in stop ["*"; "/"] = None ->
       tag_in stop ["+"; "-"] = None ->
       parse_expression (a :: plus :: b :: times :: c :: stop :: rest)
       = Ok (BinaryOp op1 (Number (value a))
               (BinaryOp op2 (Number (value b)) (Number (value c))),
             stop :: rest).
Proof.
  split; [reflexivity|].
  intros a plus b times c stop rest op1 op2 Ha Hplus Hb Htimes Hc Hs1 Hs2.
  rewrite parse_expression_eq, parse_term_number;
    eauto using additive_not_multiplicative.
  cbn [bind]. rewrite parse_expression_while_eq, Hplus.
  rewrite parse_term_eq, parse_factor_number by assumption. cbn [bind].
  rewrite parse_term_while_eq, Htimes, parse_factor_number by assumption.
  cbn [bind]. rewrite parse_term_while_eq, Hs1. cbn [bind].
  now rewrite parse_expression_while_eq, Hs2.
Qed.

(** C2. Operators of one precedence level fold to the left:
    [parse(tokenize("2*4/6"))] is [/( *(2, 4), 6)].  In the loops of
    [parse_term] and of [parse_expression] the node built so far becomes the
    left child of the new node, so a chain of numbers parses to the left
    fold of its operators. *)
Theorem same_level_folds_left :
  (tokens <- tokenize py_float (str "2*4/6") ;; parse tokens)
  = Ok (BinaryOp "/"
          (BinaryOp "*" (Number (VInt 2)) (Number (VInt 4)))
          (Number (VInt 6)))
  /\ (forall node t rest op right_node rest1,
         tag_in t ["*"; "/"] = Some op ->
         parse_factor rest = Ok (right_node, rest1) ->
         parse_term_while node (t :: rest)
         = parse_term_while (BinaryOp op node right_node) rest1)
  /\ (forall node t rest op right_node rest1,
         tag_in t ["+"; "-"] = Some op ->
         parse_term rest = Ok (right_node, rest1) ->
         parse_expression_while node (t :: rest)
         = parse_expression_while (BinaryOp op node right_node) rest1)
  /\ (forall first pairs stop rest,
         tag_is first "number" = true ->
         Forall (op_number ["*"; "/"]) pairs ->
         tag_in stop ["*"; "/"] = None ->
         parse_term (first :: chain pairs ++ stop :: rest)
         = Ok (fold_left fold_op pairs (Number (value first)), stop :: rest))
  /\ (forall first pairs stop rest,
         tag_is first "number" = true ->
         Forall (op_number ["+"; "-"]) pairs ->
         tag_in stop ["+"; "-"] = None ->
         tag_in stop ["*"; "/"] = None ->
         parse_expression (first :: chain pairs ++ stop :: rest)
         = Ok (fold_left fold_op pairs (Number (value first)), stop :: rest)).
Proof.
  split; [reflexivity|]. split; [|split; [|split]].
  - intros node t rest op right_node rest1 Hop Hf.
    now rewrite parse_term_while_eq, Hop, Hf.
  - intros node t rest op right_node rest1 Hop Ht.
    now rewrite parse_expression_while_eq, Hop, Ht.
  - intros first pairs stop rest Hfirst Hpairs Hstop.
    rewrite parse_term_eq, parse_factor_number by assumption. cbn [bind].
    now apply parse_term_while_chain.
  - intros first pairs stop rest Hfirst Hpairs Hs1 Hs2.
    rewrite parse_expression_eq.
    assert (Hterm : parse_term (first :: chain pairs ++ stop :: rest)
                    = Ok (Number (value first), chain pairs ++ stop :: rest)).
    { destruct pairs as [|[o n] pairs'].
      - cbn [chain flat_map app]. now apply parse_term_number.
      - cbn [chain flat_map fst snd app].
        apply parse_term_number; trivial.
        inversion Hpairs as [|p' ps' [[op' Ho'] _] _]; subst.
        eapply additive_not_multiplicative; eassumption. }
    rewrite Hterm. cbn [bind]. now apply parse_expression_while_chain.
Qed.

(** C3. A parenthesized sub-expression overrides precedence:
    [parse(tokenize("1+(2+3)*4"))] is [+(1, *(+(2, 3), 4))]; on a head token
    tagged ["("], [parse_factor] parses a full expression after it and
    requires the next token to be [")"]. *)
Theorem parentheses_override_precedence :
  (tokens <- tokenize py_float (str "1+(2+3)*4") ;; parse tokens)
  = Ok (BinaryOp "+" (Number (VInt 1))
          (BinaryOp "*"
             (BinaryOp "+" (Number (VInt 2)) (Number (VInt 3)))
             (Number (VInt 4))))
  /\ forall t rest,
       tag_is t "(" = true ->
       parse_factor (t :: rest)
       = '(node, tokens1) <- parse_expression rest ;;
         match tokens1 with
         | [] => Raise IndexError
         | closing :: rest1 =>
             if tag_is closing ")" then Ok (node, rest1)
             else Raise AssertionError
         end.
Proof.
  split; [reflexivity|].
  intros t rest Hp.
  now rewrite parse_factor_eq, (paren_not_number _ Hp), Hp.
Qed.

(** C6, amended.  A head token that is neither a number nor ["("] makes
    [parse_factor] raise an exception whose message carries the tag and the
    position of that token.  A missing [")"] after a parenthesized
    expression raises a bare [AssertionError].  On a token list that ends
    with the end marker, every failure of [parse] is one of these two; on
    any token list, it is one of these two or the [IndexError] of a list
    that ran out. *)
Theorem parse_failures :
  (forall t rest,
      tag_is t "number" = false -> tag_is t "(" = false ->
      parse_factor (t :: rest)
      = Raise (Exception ("Unexpected token '" ++ show_tag (tag t)
                          ++ "' at position " ++ show_nat (position t)
                          ++ ".")))
  /\ (forall t rest node closing rest1,
         tag_is t "(" = true ->
         parse_expression rest = Ok (node, closing :: rest1) ->
         tag_is closing ")" = false ->
         parse_factor (t :: rest) = Raise AssertionError)
  /\ (forall tokens e,
         terminated tokens -> parse tokens = Raise e ->
         unexpected_in tokens e \/ e = AssertionError)
  /\ (forall tokens e,
         parse tokens = Raise e -> parse_failure tokens e).
Proof.
  split; [|split; [|split]].
  - intros t rest Hn Hp. now rewrite parse_factor_eq, Hn, Hp.
  - intros t rest node closing rest1 Hp He Hc.
    rewrite parse_factor_eq, (paren_not_number _ Hp), Hp, He. cbn [bind].
    now rewrite Hc.
  - intros tokens e Hterm H.
    destruct (parse_raises _ _ H) as [Hu|[Ha| ->]]; auto.
    now apply parse_never_runs_out in H.
  - exact parse_raises.
Qed.

(** C8. When [parse_statement] returns, [parse] returns the tree it built
    and drops the tokens it left, whatever they are: the input ["1 2 )"]
    parses to the number 1, with the tokens of ["2 )"] and the end marker
    left over. *)
Theorem parse_ignores_trailing_tokens :
  (forall tokens node rest,
      parse_statement tokens = Ok (node, rest) -> parse tokens = Ok node)
  /\ (tokens <- tokenize py_float (str "1 2 )") ;; parse_statement tokens)
     = Ok (Number (VInt 1),
           [mkToken (Some "number") 2 (VInt 2);
            mkToken (Some ")") 4 (VStr (str ")"));
            end_marker 5])
  /\ (tokens <- tokenize py_float (str "1 2 )") ;; parse tokens)
     = Ok (Number (VInt 1)).
Proof.
  split; [|split; reflexivity].
  intros tokens node rest H. unfold parse. now rewrite H.
Qed.

(** C10. The empty input is not accepted: [tokenize] of the empty string is
    the end marker alone, and [parse] of that list fails in [parse_factor], which rejects
    the end marker as the start of a factor. *)
Theorem empty_input_rejected :
  tokenize py_float (str EmptyString) = Ok [end_marker 0]
  /\ parse_factor [@end_marker float 0]
     = Raise (Exception "Unexpected token 'None' at position 0.")
  /\ parse [@end_marker float 0]
     = Raise (Exception "Unexpected token 'None' at position 0.")
  /\ (tokens <- tokenize py_float (str EmptyString) ;; parse tokens)
     = Raise (Exception "Unexpected token 'None' at position 0.").
Proof. repeat split; reflexivity. Qed.

End ParserTheorems.

(** * The theorems at concrete inputs

    The floating-point parse is read as [exact_decimal] here. *)

Lemma multiplication_binds_tighter_witness :
  parse_expression
    [mkToken (Some "number") 0 (@VInt Q 1);
     mkToken (Some "+") 1 (VStr (str "+"));
     mkToken (Some "number") 2 (VInt 2);
     mkToken (Some "*") 3 (VStr (str "*"));
     mkToken (Some "number") 4 (VInt 4);
     end_marker 5]
  = Ok (BinaryOp "+" (Number (VInt 1))
          (BinaryOp "*" (Number (VInt 2)) (Number (VInt 4))),
        [end_marker 5]).
Proof.
  apply (proj2 (multiplication_binds_tighter exact_decimal)); reflexivity.
Defined.

Lemma same_level_folds_left_witness :
  parse_term
    ([mkToken (Some "number") 0 (@VInt Q 2)]
       ++ chain [(mkToken (Some "*") 1 (VStr (str "*")),
                  mkToken (Some "number") 2 (VInt 4));
                 (mkToken (Some "/") 3 (VStr (str "/")),
                  mkToken (Some "number") 4 (VInt 6))]
       ++ [end_marker 5])
  = Ok (BinaryOp "/"
          (BinaryOp "*" (Number (VInt 2)) (Number (VInt 4)))
          (Number (VInt 6)),
        [end_marker 5]).
Proof.
  apply (proj1 (proj2 (proj2 (proj2
           (same_level_folds_left exact_decimal))))).
  - reflexivity.
  - constructor; [split; [now exists "*"|reflexivity]|].
    constructor; [split; [now exists "/"|reflexivity]|].
    constructor.
  - reflexivity.
Defined.

Lemma parentheses_override_precedence_witness :
  parse_factor
    [mkToken (Some "(") 0 (@VStr Q (str "("));
     mkToken (Some "number") 1 (VInt 2);
     mkToken (Some "+") 2 (VStr (str "+"));
     mkToken (Some "number") 3 (VInt 3);
     mkToken (Some ")") 4 (VStr (str ")"));
     end_marker 5]
  = Ok (BinaryOp "+" (Number (VInt 2)) (Number (VInt 3)), [end_marker 5]).
Proof.
  rewrite (proj2 (parentheses_override_precedence exact_decimal));
    reflexivity.
Defined.


Lemma syntax_error_witness :
  exists p, scans exact_decimal (str "$1+2") p
            /\ p < List.length (str "$1+2")
            /\ only_error_rule (str "$1+2") p.
Proof.
  apply (proj1 (proj1 (syntax_error_exactly_on_illegal_character
                         exact_decimal) (str "$1+2"))).
  reflexivity.
Defined.

(** Counterexample to C5 in its general form: in ["11."] position 2 is
    matched only by the catch-all rule, and the text is accepted. *)
Lemma illegal_position_counterexample :
  2 < List.length (str "11.")
  /\ only_error_rule (str "11.") 2
  /\ tokenize exact_decimal (str "11.")
     = Ok [mkToken (Some "number") 0 (VFloat (exact_decimal (str "11.")));
           end_marker 3]
  /\ tokenize exact_decimal (str "11.") <> Raise (Exception "Syntax error").
Proof.
  split; [simpl; lia|]. split; [|split; [reflexivity|discriminate]].
  apply first_match_error. now exists 1.
Qed.

Lemma tokens_ordered_and_end_marked_witness :
  let out := [mkToken (Some "number") 0 (@VInt Q 1);
              mkToken (Some "+") 2 (VStr (str "+"));
              mkToken (Some "number") 4 (VInt 2);
              end_marker 5] in
  StronglySorted (fun a b => position a <= position b) out
  /\ exists real,
       out = real ++ [mkToken None (List.length (str "1 + 2")) VNone]
       /\ Forall (fun t => exists name,
                      tag t = Some name /\ In name grammar_tags) real.
Proof.
  apply (tokens_ordered_and_end_marked exact_decimal (str "1 + 2")).
  reflexivity.
Defined.

Lemma parse_ignores_trailing_tokens_witness :
  parse [mkToken (Some "number") 0 (@VInt Q 1);
         mkToken (Some "number") 2 (VInt 2);
         mkToken (Some ")") 4 (VStr (str ")"));
         end_marker 5]
  = Ok (Number (VInt 1)).
Proof.
  apply (proj1 (parse_ignores_trailing_tokens exact_decimal)
           _ _ [mkToken (Some "number") 2 (VInt 2);
                mkToken (Some ")") 4 (VStr (str ")"));
                end_marker 5]).
  reflexivity.
Defined.

Lemma keyword_prefix_split_witness :
  tokenize exact_decimal (str "printer")
  = Ok [mkToken (Some "print") 0 (VStr (str "print"));
        mkToken (Some "identifier") 5 (VStr (str "er"));
        end_marker 7].
Proof.
  apply (keyword_prefix_split exact_decimal "e" (str "r")); reflexivity.
Defined.

(** Counterexample to C9 in its general form: ["printprint"] is ["print"] followed by identifier
    characters, and its second token is the keyword again, not an
    identifier. *)
Lemma keyword_prefix_counterexample :
  forallb ident_char (str "print") = true
  /\ tokenize exact_decimal (str "print" ++ str "print")
     = Ok [mkToken (Some "print") 0 (VStr (str "print"));
           mkToken (Some "print") 5 (VStr (str "print"));
           end_marker 10]
  /\ tokenize exact_decimal (str "print" ++ str "print")
     <> Ok [mkToken (Some "print") 0 (VStr (str "print"));
            mkToken (Some "identifier") 5 (VStr (str "print"));
            end_marker 10].
Proof. repeat split. discriminate. Qed.

Lemma parse_failures_witness :
  unexpected_in
    [mkToken (Some "(") 0 (@VStr Q (str "("));
     mkToken (Some "number") 1 (VInt 1);
     end_marker 2] AssertionError
  \/ AssertionError = AssertionError.
Proof.
  apply (proj1 (proj2 (proj2 (@parse_failures Q)))).
  - exists [mkToken (Some "(") 0 (@VStr Q (str "("));
            mkToken (Some "number") 1 (VInt 1)], (end_marker 2).
    split; reflexivity.
  - reflexivity.
Defined.

(** Counterexample to C6 in its general form: for ["(1"] the closing parenthesis is missing, and
    the failure is an [AssertionError], which carries no tag and no
    position. *)
Lemma missing_parenthesis_counterexample :
  let tokens := [mkToken (Some "(") 0 (@VStr Q (str "("));
                 mkToken (Some "number") 1 (VInt 1);
                 end_marker 2] in
  tokenize exact_decimal (str "(1") = Ok tokens
  /\ parse tokens = Raise AssertionError
  /\ forall msg, parse tokens <> Raise (Exception msg).
Proof. repeat split. discriminate. Qed.

(** * Further facts about the pattern table *)

Section TableFacts.

Lemma in_all_ascii (a : ascii) : In a all_ascii.
Proof.
  unfold all_ascii. rewrite <- (ascii_nat_embedding a).
  apply in_map, in_seq. pose proof (nat_ascii_bounded a). lia.
Qed.

Lemma disjoint_spec (c d : cclass) (a : ascii) :
  disjoint c d = true -> c a = true -> d a = false.
Proof.
  unfold disjoint. rewrite forallb_forall. intros H Hc.
  specialize (H a (in_all_ascii a)). rewrite Hc in H.
  now destruct (d a).
Qed.

Lemma patterns_free_of_space : tokens_free_of_space patterns = true.
Proof. vm_compute. reflexivity. Qed.

Lemma whitespace_tag_pattern pattern :
  In (pattern, "whitespace") patterns -> pattern = [[(space, Plus)]].
Proof.
  unfold patterns. simpl.
  intros H.
  repeat (destruct H as [H|H]; [try discriminate H; now injection H|]).
  contradiction.
Qed.

(** The text of a token holds no whitespace character. *)
Lemma token_text_no_space characters position name n :
  first_match patterns characters position = Some (name, n) ->
  name <> "whitespace" -> name <> "error" ->
  forallb (fun a => negb (space a)) (slice characters position n) = true.
Proof.
  intros H Hws Herr.
  destruct (first_match_in _ _ _ _ _ H) as (pattern & Hin & Hre).
  destruct (match_regex_in _ _ _ Hre) as (b & Hb & Hm).
  pose proof (match_branch_chars _ _ _ Hm) as Hc.
  pose proof patterns_free_of_space as Hfree.
  unfold tokens_free_of_space in Hfree. rewrite forallb_forall in Hfree.
  specialize (Hfree _ Hin). cbn [fst snd] in Hfree.
  destruct (String.eqb_spec name "whitespace"); [contradiction|].
  destruct (String.eqb_spec name "error"); [contradiction|].
  cbn [orb] in Hfree. rewrite forallb_forall in Hfree.
  specialize (Hfree _ Hb).
  unfold slice. rewrite forallb_forall in *. intros a Ha.
  specialize (Hc a Ha). apply existsb_exists in Hc as (q & Hq & Hqa).
  specialize (Hfree q Hq). now rewrite (disjoint_spec _ _ _ Hfree Hqa).
Qed.

(** The text of a whitespace match holds whitespace characters only. *)
Lemma whitespace_text_all_space characters position n :
  first_match patterns characters position = Some ("whitespace", n) ->
  forallb space (slice characters position n) = true.
Proof.
  intros H.
  destruct (first_match_in _ _ _ _ _ H) as (pattern & Hin & Hre).
  apply whitespace_tag_pattern in Hin. subst pattern.
  destruct (match_regex_in _ _ _ Hre) as (b & [<-|[]] & Hm).
  pose proof (match_branch_chars _ _ _ Hm) as Hc.
  unfold slice. rewrite forallb_forall in *. intros a Ha.
  specialize (Hc a Ha). cbn [existsb fst] in Hc.
  now rewrite orb_false_r in Hc.
Qed.

Lemma filter_keep_all {A : Type} (f : A -> bool) (l : list A) :
  forallb f l = true -> filter f l = l.
Proof.
  induction l as [|a l IH]; simpl; trivial.
  destruct (f a); simpl; [|discriminate]. intros H. now rewrite IH.
Qed.

Lemma filter_drop_all {A : Type} (f : A -> bool) (l : list A) :
  forallb (fun a => negb (f a)) l = true -> filter f l = [].
Proof.
  induction l as [|a l IH]; simpl; trivial.
  destruct (f a); simpl; [discriminate|]. exact IH.
Qed.

Lemma slice_split (characters : list ascii) (p n : nat) :
  skipn p characters = slice characters p n ++ skipn (p + n) characters.
Proof.
  unfold slice. rewrite <- (firstn_skipn n (skipn p characters)) at 1.
  now rewrite skipn_skipn, (Nat.add_comm n p).
Qed.

Lemma slice_length (characters : list ascii) (p n : nat) :
  p + n <= List.length characters ->
  List.length (slice characters p n) = n.
Proof.
  intros H. unfold slice. rewrite length_firstn, length_skipn. lia.
Qed.

(** A greedy piece after which the rest never matches. *)
Lemma give_back_none rest s lo k :
  (forall j, j <= k -> rest (skipn j s) = None) ->
  give_back rest s lo k = None.
Proof.
  induction k as [|k IH]; intros H; rewrite give_back_eq;
    destruct (_ <? lo); trivial; rewrite (H _ (le_n _)); trivial.
  apply IH. intros j Hj. apply H. lia.
Qed.

Lemma lit_no_match (w : string) (s : list ascii) :
  starts_with (str w) s = false -> match_regex (lit w) s = None.
Proof.
  intros H. unfold lit, match_regex. now rewrite match_word, H.
Qed.

Lemma lit_head_no_match (c : ascii) (w : string) (a : ascii) (s : list ascii) :
  Ascii.eqb c a = false -> match_regex (lit (String c w)) (a :: s) = None.
Proof.
  intros H. apply lit_no_match.
  change (str (String c w)) with (c :: str w).
  cbn [starts_with]. now rewrite H.
Qed.

Lemma number_no_match (c : ascii) (s : list ascii) :
  digit c = false -> is_char "." c = false ->
  match_regex number_pattern (c :: s) = None.
Proof.
  intros Hd Hdot.
  unfold number_pattern, match_regex, match_branch.
  unfold span. rewrite Hd. rewrite !give_back_eq.
  cbn [Nat.ltb Nat.leb skipn]. now rewrite Hdot.
Qed.

Lemma identifier_no_match (c : ascii) (s : list ascii) :
  ident_start c = false ->
  match_regex [[(ident_start, Once); (ident_char, Star)]] (c :: s) = None.
Proof. intros H. unfold match_regex, match_branch. now rewrite H. Qed.

(** What a whitespace character is not. *)
Lemma space_char (a : ascii) :
  space a = true ->
  digit a = false /\ is_char "." a = false /\ ident_start a = false
  /\ Ascii.eqb "+" a = false /\ Ascii.eqb "-" a = false
  /\ Ascii.eqb "*" a = false /\ Ascii.eqb "/" a = false
  /\ Ascii.eqb "(" a = false /\ Ascii.eqb ")" a = false.
Proof.
  destruct a as [[] [] [] [] [] [] [] []]; vm_compute; intros H;
    (discriminate H || (repeat split; reflexivity)).
Qed.

Lemma digit_char (a : ascii) :
  digit a = true -> is_char "." a = false /\ Ascii.eqb "p" a = false.
Proof.
  destruct a as [[] [] [] [] [] [] [] []]; vm_compute; intros H;
    (discriminate H || (split; reflexivity)).
Qed.

(** On a run of whitespace the whitespace rule is the first to match, and
    it takes the whole run. *)
Lemma first_match_whitespace (a : ascii) (s : list ascii) :
  forallb space (a :: s) = true ->
  first_match patterns (a :: s) 0 = Some ("whitespace", S (List.length s)).
Proof.
  intros H. pose proof H as Hall. simpl in H.
  apply andb_true_iff in H as [Ha Hs].
  destruct (space_char a Ha)
    as (Hd & Hdot & Hid & Hplus & Hminus & Hmul & Hdiv & Hl & Hr).
  assert (Hp : Ascii.eqb "p" a = false).
  { unfold ident_start in Hid. apply orb_false_iff in Hid as [Hid _].
    apply orb_false_iff in Hid as [Hid _].
    destruct (Ascii.eqb_spec "p"%char a) as [<-|]; [discriminate Hid|trivial]. }
  unfold patterns, first_match, re_match. rewrite skipn_0.
  rewrite lit_head_no_match by assumption.
  rewrite number_no_match, identifier_no_match by assumption.
  rewrite !lit_head_no_match by assumption.
  unfold match_regex, match_branch.
  rewrite (span_forallb _ _ Hall).
  rewrite (give_back_greedy _ _ 1 _ 0); [|simpl; lia|reflexivity].
  simpl. now rewrite Nat.add_0_r.
Qed.

(** On a string of digits the number rule is the first to match, and it
    takes the whole string. *)
Lemma first_match_digits (a : ascii) (s : list ascii) :
  forallb digit (a :: s) = true ->
  first_match patterns (a :: s) 0 = Some ("number", S (List.length s)).
Proof.
  intros Hall.
  assert (Ha : digit a = true) by (simpl in Hall; now destruct (digit a)).
  destruct (digit_char a Ha) as [_ Hp].
  assert (Hrest : forall b j, j <= List.length (a :: s) ->
            match_branch ((is_char ".", Once) :: b) (skipn j (a :: s)) = None).
  { intros b j Hj.
    destruct (skipn j (a :: s)) as [|d t] eqn:E; [reflexivity|].
    assert (Hd : digit d = true).
    { rewrite forallb_forall in Hall. apply Hall.
      rewrite <- (firstn_skipn j (a :: s)), E. apply in_or_app. right. now left. }
    cbn [match_branch]. now rewrite (proj1 (digit_char d Hd)). }
  unfold patterns, first_match, re_match. rewrite skipn_0.
  rewrite lit_head_no_match by assumption.
  unfold number_pattern, match_regex.
  cbn [match_branch]. rewrite (span_forallb _ _ Hall).
  rewrite give_back_none
    by (intros j Hj; exact (Hrest [(digit, Plus)] j Hj)).
  rewrite give_back_none
    by (intros j Hj; exact (Hrest [(digit, Star)] j Hj)).
  rewrite (give_back_greedy _ _ 1 _ 0); [|simpl; lia|reflexivity].
  simpl. now rewrite Nat.add_0_r.
Qed.

End TableFacts.

(** * Further theorems about the tokenizer *)

Section TokenizerExtras.

Context {float : Type} (py_float : list ascii -> float).

(** A text taken whole by one rule gives one token, or none when the rule
    is the whitespace rule. *)
Lemma tokenize_whole (characters : list ascii) (name : string) (v : pyval float) :
  characters <> [] ->
  first_match patterns characters 0
  = Some (name, List.length characters) ->
  name <> "error" ->
  token_value py_float name characters = Ok v ->
  tokenize py_float characters
  = Ok ((if negb (String.eqb name "whitespace")
         then [mkToken (Some name) 0 v] else [])
          ++ [end_marker (List.length characters)]).
Proof.
  intros Hne Hfm Herr Hv. unfold tokenize.
  destruct characters as [|a s]; [contradiction|].
  rewrite tokenize_while_eq. cbn [List.length Nat.ltb Nat.leb].
  rewrite Hfm. destruct (String.eqb_spec name "error"); [contradiction|].
  rewrite skipn_0.
  change (S (List.length s)) with (List.length (a :: s)) at 1.
  rewrite firstn_all, Hv. cbn [bind].
  rewrite tokenize_while_eq. cbn [List.length Nat.add].
  destruct (Nat.ltb_spec (S (List.length s)) (S (List.length s))); [lia|].
  now destruct (negb _).
Qed.

(** X1. At every position inside the text some rule of the table matches,
    the match is not empty and it ends inside the text: the [assert match]
    of the loop never fails and every round moves the position forward. *)
Theorem every_round_advances (characters : list ascii) (p : nat) :
  p < List.length characters ->
  exists name n,
    first_match patterns characters p = Some (name, n)
    /\ 1 <= n /\ p + n <= List.length characters.
Proof.
  intros Hlt.
  destruct (first_match patterns characters p) as [[name n]|] eqn:Hfm.
  - exists name, n. split; trivial.
    destruct (first_match_bounds _ _ _ _ Hfm) as (H1 & H2 & _). now split.
  - now apply first_match_total in Hfm.
Qed.

(** The pieces of the input that a run of the loop turns into tokens. *)
Lemma tokenize_while_texts characters fuel :
  forall (tokens : list (token float)) start out,
    start <= List.length characters ->
    tokenize_while py_float fuel characters tokens start = Ok out ->
    exists new texts,
      out = tokens ++ new ++ [end_marker (List.length characters)]
      /\ Forall2 (text_of py_float characters) new texts
      /\ List.concat texts
         = filter (fun a => negb (space a)) (skipn start characters).
Proof.
  induction fuel as [|fuel IH]; intros tokens start out Hle;
    rewrite tokenize_while_eq;
    destruct (Nat.ltb_spec start (List.length characters)) as [Hlt|Hge];
    try discriminate;
    try (intros [= <-]; exists [], [];
         replace start with (List.length characters) by lia;
         rewrite skipn_all; repeat split; constructor).
  destruct (first_match patterns characters start) as [[name n]|] eqn:Hfm;
    [|discriminate].
  destruct (first_match_bounds _ _ _ _ Hfm) as (Hn1 & Hn2 & _).
  destruct (String.eqb_spec name "error") as [->|Herr]; [discriminate|].
  fold (slice characters start n).
  destruct (token_value py_float name _) as [v| |] eqn:Hv; try discriminate.
  cbn [bind]. rewrite (slice_split characters start n), filter_app.
  destruct (String.eqb_spec name "whitespace") as [->|Hws]; cbn [negb];
    intros Hrun; apply IH in Hrun; try lia;
    destruct Hrun as (new & texts & -> & Htexts & Hcat).
  - exists new, texts. repeat split; trivial.
    rewrite filter_drop_all; [assumption|].
    pose proof (whitespace_text_all_space _ _ _ Hfm) as Hsp.
    rewrite forallb_forall in *. intros a Ha.
    now rewrite (Hsp a Ha).
  - exists (mkToken (Some name) start v :: new),
           (slice characters start n :: texts).
    rewrite <- app_assoc. repeat split; trivial.
    + constructor; trivial.
      pose proof (slice_length characters start n Hn2) as Hlen.
      repeat split.
      * intros E. rewrite E in Hlen. simpl in Hlen. lia.
      * cbn [position]. now rewrite Hlen.
      * exists name. now split.
    + cbn [List.concat]. rewrite Hcat. f_equal.
      symmetry. apply filter_keep_all.
      now apply (token_text_no_space _ _ name).
Qed.

(** X2. Nothing but whitespace is lost: when [tokenize] returns, each token
    before the end marker was built from a piece of the input that stands
    at the position of the token, and these pieces, put together in the
    order of the tokens, are the input with its whitespace characters
    removed. *)
Theorem only_whitespace_is_lost (characters : list ascii)
        (out : list (token float)) :
  tokenize py_float characters = Ok out ->
  exists real texts,
    out = real ++ [end_marker (List.length characters)]
    /\ Forall2 (text_of py_float characters) real texts
    /\ List.concat texts = filter (fun a => negb (space a)) characters.
Proof.
  intros H. apply tokenize_while_texts in H; [|lia].
  destruct H as (new & texts & -> & Htexts & Hcat).
  exists new, texts. now repeat split.
Qed.

(** X3. An input made of whitespace only, the empty input included, gives
    the end marker alone. *)
Theorem whitespace_only_input (characters : list ascii) :
  forallb space characters = true ->
  tokenize py_float characters = Ok [end_marker (List.length characters)].
Proof.
  intros H. destruct characters as [|a s]; [reflexivity|].
  apply (tokenize_whole (a :: s) "whitespace" (VStr (a :: s)));
    try discriminate; trivial.
  now apply first_match_whitespace.
Qed.

(** X4. A word that starts with a letter or an underscore, goes on with
    letters, digits and underscores, and does not begin with ["print"], is
    one identifier token whose value is the word. *)
Theorem identifier_is_one_token (c : ascii) (w : list ascii) :
  ident_start c = true ->
  forallb ident_char w = true ->
  starts_with (str "print") (c :: w) = false ->
  tokenize py_float (c :: w)
  = Ok [mkToken (Some "identifier") 0 (VStr (c :: w));
        end_marker (S (List.length w))].
Proof.
  intros Hc Hw Hp.
  apply (tokenize_whole (c :: w) "identifier" (VStr (c :: w)));
    try discriminate; trivial.
  now apply first_match_identifier.
Qed.

Lemma digits_no_dot (s : list ascii) :
  forallb digit s = true -> existsb (is_char ".") s = false.
Proof.
  induction s as [|a s IH]; cbn [forallb existsb]; trivial.
  destruct (digit a) eqn:Ha; [|discriminate].
  rewrite (proj1 (digit_char a Ha)). exact IH.
Qed.

Lemma positional_fold (text : list ascii) :
  forall acc,
    fold_left (fun z a => (10 * z + digit_value a)%Z) text acc
    = (acc * 10 ^ Z.of_nat (List.length text) + positional text)%Z.
Proof.
  induction text as [|a text IH]; intros acc.
  - simpl. lia.
  - cbn [fold_left positional List.length]. rewrite IH.
    rewrite Nat2Z.inj_succ, Z.pow_succ_r by lia. ring.
Qed.

Lemma py_int_digits (text : list ascii) :
  text <> [] -> forallb digit text = true ->
  List.length text <= int_max_str_digits ->
  py_int text = Some (positional text).
Proof.
  intros Hne Hd Hlen. unfold py_int.
  destruct text as [|a s]; [contradiction|].
  rewrite Hd, (proj2 (Nat.leb_le _ _) Hlen). cbn [andb].
  now rewrite positional_fold.
Qed.

Lemma py_int_long (text : list ascii) :
  int_max_str_digits < List.length text -> py_int text = None.
Proof.
  intros Hlen. unfold py_int. destruct text as [|a s]; trivial.
  destruct (Nat.leb_spec (List.length (a :: s)) int_max_str_digits); [lia|].
  now rewrite andb_false_r.
Qed.

(** A text taken whole by one rule whose decoding fails. *)
Lemma tokenize_whole_raise (characters : list ascii) (name : string) (e : exn) :
  characters <> [] ->
  first_match patterns characters 0
  = Some (name, List.length characters) ->
  name <> "error" ->
  token_value py_float name characters = Raise e ->
  tokenize py_float characters = Raise e.
Proof.
  intros Hne Hfm Herr Hv. unfold tokenize.
  destruct characters as [|a s]; [contradiction|].
  rewrite tokenize_while_eq. cbn [List.length Nat.ltb Nat.leb].
  rewrite Hfm. destruct (String.eqb_spec name "error"); [contradiction|].
  rewrite skipn_0.
  now rewrite firstn_all, Hv.
Qed.

Lemma digits_short (characters : list ascii) :
  characters <> [] ->
  forallb digit characters = true ->
  List.length characters <= int_max_str_digits ->
  tokenize py_float characters
  = Ok [mkToken (Some "number") 0 (VInt (positional characters));
        end_marker (List.length characters)].
Proof.
  intros Hne Hd Hlen. pose proof (py_int_digits _ Hne Hd Hlen) as Hint.
  destruct characters as [|a s]; [contradiction|].
  apply (tokenize_whole (a :: s) "number" (VInt (positional (a :: s))));
    try discriminate; trivial.
  - now apply first_match_digits.
  - unfold token_value. cbn [String.eqb Ascii.eqb Bool.eqb].
    now rewrite (digits_no_dot _ Hd), Hint.
Qed.

Lemma digits_long (characters : list ascii) :
  forallb digit characters = true ->
  int_max_str_digits < List.length characters ->
  tokenize py_float characters = Raise ValueError.
Proof.
  intros Hd Hlen. pose proof (py_int_long _ Hlen) as Hint.
  destruct characters as [|a s]; [simpl in Hlen; lia|].
  apply (tokenize_whole_raise (a :: s) "number");
    try discriminate; trivial.
  - now apply first_match_digits.
  - unfold token_value. cbn [String.eqb Ascii.eqb Bool.eqb].
    now rewrite (digits_no_dot _ Hd), Hint.
Qed.

(** X5. A non-empty string of digits is one number token whose value is
    the integer the digits denote, as long as the string has no more digits
    than [int] converts; a longer string of digits makes [tokenize] raise
    the [ValueError] of [int]. *)
Theorem digits_are_one_integer_token (characters : list ascii) :
  characters <> [] ->
  forallb digit characters = true ->
  (List.length characters <= int_max_str_digits ->
   tokenize py_float characters
   = Ok [mkToken (Some "number") 0 (VInt (positional characters));
         end_marker (List.length characters)])
  /\ (int_max_str_digits < List.length characters ->
      tokenize py_float characters = Raise ValueError).
Proof.
  intros Hne Hd. split.
  - now apply digits_short.
  - now apply digits_long.
Qed.

(** The [ValueError] comes before the syntax error when the long literal
    stands before the illegal character. *)
Example long_integer_literal :
  tokenize py_float (repeat "1"%char 4301) = Raise ValueError
  /\ tokenize py_float (repeat "1"%char 4301 ++ str "$") = Raise ValueError
  /\ exists n, tokenize py_float (repeat "1"%char 4300)
               = Ok [mkToken (Some "number") 0 (VInt n); end_marker 4300].
Proof.
  split; [|split].
  - apply digits_long; [now vm_compute|].
    rewrite repeat_length. unfold int_max_str_digits. lia.
  - vm_compute. reflexivity.
  - eexists. rewrite digits_short; [now rewrite repeat_length|discriminate
      |now vm_compute|rewrite repeat_length; unfold int_max_str_digits; lia].
Qed.

(** The characters of a decimal numeral. *)
Lemma numeral_digits (d : Decimal.uint) :
  forallb digit (str (NilEmpty.string_of_uint d)) = true.
Proof. induction d; simpl; trivial. Qed.

Lemma numeral_value (d : Decimal.uint) :
  forall acc,
    fold_left (fun z a => (10 * z + digit_value a)%Z)
              (str (NilEmpty.string_of_uint d)) (Z.of_nat acc)
    = Z.of_nat (Nat.of_uint_acc d acc).
Proof.
  induction d; intros acc; cbn [NilEmpty.string_of_uint str
    list_ascii_of_string fold_left Nat.of_uint_acc]; trivial;
    rewrite <- IHd, Nat.tail_mul_spec; f_equal;
    unfold digit_value; cbn [code nat_of_ascii]; vm_compute Z.of_nat at 2;
    lia.
Qed.

Lemma numeral_not_empty (n : nat) : str (show_nat n) <> [].
Proof.
  unfold show_nat. intros E.
  assert (H : Nat.to_uint n = Decimal.Nil).
  { destruct (Nat.to_uint n); trivial; discriminate E. }
  pose proof (DecimalNat.Unsigned.of_to n) as Hn. rewrite H in Hn.
  cbn in Hn. subst n. discriminate H.
Qed.

Lemma positional_numeral (n : nat) :
  positional (str (show_nat n)) = Z.of_nat n.
Proof.
  pose proof (numeral_value (Nat.to_uint n) 0) as H.
  rewrite positional_fold in H. fold (Nat.of_uint (Nat.to_uint n)) in H.
  rewrite DecimalNat.Unsigned.of_to in H. unfold show_nat.
  cbn [Z.of_nat] in H. lia.
Qed.

(** X6. Printing a natural number in decimal and tokenizing the text gives
    one number token that holds the number, as long as the text has no more
    digits than [int] converts. *)
Theorem decimal_numeral_round_trip (n : nat) :
  List.length (str (show_nat n)) <= int_max_str_digits ->
  tokenize py_float (str (show_nat n))
  = Ok [mkToken (Some "number") 0 (VInt (Z.of_nat n));
        end_marker (List.length (str (show_nat n)))].
Proof.
  intros Hlen. rewrite <- (positional_numeral n) at 1.
  apply digits_short; trivial.
  - apply numeral_not_empty.
  - apply numeral_digits.
Qed.

(** X7. The keyword wins over the identifier rule: whenever the input
    begins with ["print"] and [tokenize] returns, the first token is the
    keyword at position 0, whatever follows it. *)
Theorem keyword_first (s : list ascii) (out : list (token float)) :
  tokenize py_float (str "print" ++ s) = Ok out ->
  exists rest,
    out = mkToken (Some "print") 0 (VStr (str "print")) :: rest.
Proof.
  unfold tokenize.
  change (str "print" ++ s) with ("p" :: "r" :: "i" :: "n" :: "t" :: s)%char.
  cbn [List.length]. rewrite tokenize_while_eq.
  cbn [List.length Nat.ltb Nat.leb].
  change (first_match patterns ("p" :: "r" :: "i" :: "n" :: "t" :: s)%char 0)
    with (Some ("print", 5)).
  cbn [String.eqb Ascii.eqb Bool.eqb token_value bind negb firstn skipn app
       Nat.add].
  intros H. apply tokenize_while_ok in H; [|simpl; lia].
  destruct H as (new & -> & _). eexists. reflexivity.
Qed.

Lemma increasing_length (l : list (token float)) :
  forall lo hi,
    StronglySorted (fun a b => position a < position b) l ->
    Forall (fun t => lo <= position t < hi) l ->
    List.length l <= hi - lo.
Proof.
  induction l as [|a l IH]; intros lo hi Hs Hb; simpl; [lia|].
  inversion Hs as [|? ? Hs' Ha]; subst.
  inversion Hb as [|? ? Hab Hb']; subst.
  assert (H : List.length l <= hi - S (position a)).
  { apply IH; trivial. rewrite Forall_forall in *.
    intros t Ht. specialize (Ha t Ht). specialize (Hb' t Ht). simpl in *. lia. }
  lia.
Qed.

(** X8. [tokenize] returns at most one token per character of the input,
    and the end marker. *)
Theorem token_count_bound (characters : list ascii)
        (out : list (token float)) :
  tokenize py_float characters = Ok out ->
  List.length out <= List.length characters + 1.
Proof.
  intros H. destruct (tokenize_ok py_float _ _ H) as (real & -> & _ & Hpos & Hs).
  rewrite length_app. simpl.
  assert (List.length real <= List.length characters - 0); [|lia].
  apply increasing_length; trivial.
  eapply Forall_impl; [|exact Hpos]. simpl. intros; lia.
Qed.

End TokenizerExtras.

(** * Further theorems about the parser *)

Section ParserExtras.

Context {float : Type} (py_float : list ascii -> float).

Implicit Types (tokens rest : list (token float)) (node : ast float)
         (t : token float).

Lemma operator_tag t names op :
  tag_in t names = Some op -> incl names ["+"; "-"; "*"; "/"] ->
  tag t = Some op /\ In op ["+"; "-"; "*"; "/"].
Proof.
  intros H Hincl. apply tag_in_some in H as [Ht Hin]. auto.
Qed.

(** Induction over the results of the grammar functions: [P] is shown for
    what [parse_factor], [parse_term] and [parse_expression] return, [Q] for
    what the two loops return from the node they start with. *)
Lemma grammar_ind
      (P : list (token float) -> ast float -> list (token float) -> Prop)
      (Q : ast float -> list (token float) ->
           ast float -> list (token float) -> Prop) :
  (forall t rest,
      tag_is t "number" = true -> P (t :: rest) (Number (value t)) rest) ->
  (forall t rest node closing rest1,
      tag_is t "number" = false -> tag_is t "(" = true ->
      P rest node (closing :: rest1) -> tag_is closing ")" = true ->
      P (t :: rest) node rest1) ->
  (forall tokens node0 tokens1 node rest,
      P tokens node0 tokens1 -> Q node0 tokens1 node rest ->
      P tokens node rest) ->
  (forall node tokens, Q node tokens node tokens) ->
  (forall node0 t rest op right_node tokens1 node rest2,
      tag t = Some op -> In op ["+"; "-"; "*"; "/"] ->
      P rest right_node tokens1 ->
      Q (BinaryOp op node0 right_node) tokens1 node rest2 ->
      Q node0 (t :: rest) node rest2) ->
  forall fuel,
    (forall tokens node rest,
        parse_factor_n fuel tokens = Ok (node, rest) -> P tokens node rest)
    /\ (forall tokens node rest,
        parse_term_n fuel tokens = Ok (node, rest) -> P tokens node rest)
    /\ (forall node0 tokens node rest,
        parse_term_while_n fuel node0 tokens = Ok (node, rest) ->
        Q node0 tokens node rest)
    /\ (forall tokens node rest,
        parse_expression_n fuel tokens = Ok (node, rest) -> P tokens node rest)
    /\ (forall node0 tokens node rest,
        parse_expression_while_n fuel node0 tokens = Ok (node, rest) ->
        Q node0 tokens node rest).
Proof.
  intros Hnum Hparen Hseq Hstop Hstep.
  induction fuel as [|fuel (Hf & Ht & Htw & He & Hew)].
  - repeat split; intros; discriminate.
  - repeat split; intros *.
    + rewrite parse_factor_n_S.
      destruct tokens as [|token rest0]; [discriminate|].
      destruct (tag_is token "number") eqn:Hn;
        [intros [= <- <-]; now apply Hnum|].
      destruct (tag_is token "(") eqn:Hp; [|discriminate].
      intros H. apply bind_ok in H as ([n1 t1] & H1 & H2).
      destruct t1 as [|closing rest1]; [discriminate|].
      destruct (tag_is closing ")") eqn:Hc; [|discriminate].
      injection H2 as <- <-. eapply Hparen; eauto.
    + rewrite parse_term_n_S.
      intros H. apply bind_ok in H as ([n1 t1] & H1 & H2). eauto.
    + rewrite parse_term_while_n_S.
      destruct tokens as [|token rest0]; [discriminate|].
      destruct (tag_in token _) as [op|] eqn:Hop;
        [|intros [= <- <-]; apply Hstop].
      intros H. apply bind_ok in H as ([n1 t1] & H1 & H2).
      apply operator_tag in Hop as [Htag Hin];
        [|intros x [<-|[<-|[]]]; simpl; tauto].
      eapply Hstep; eauto.
    + rewrite parse_expression_n_S.
      intros H. apply bind_ok in H as ([n1 t1] & H1 & H2). eauto.
    + rewrite parse_expression_while_n_S.
      destruct tokens as [|token rest0]; [discriminate|].
      destruct (tag_in token _) as [op|] eqn:Hop;
        [|intros [= <- <-]; apply Hstop].
      intros H. apply bind_ok in H as ([n1 t1] & H1 & H2).
      apply operator_tag in Hop as [Htag Hin];
        [|intros x [<-|[<-|[]]]; simpl; tauto].
      eapply Hstep; eauto.
Qed.

Lemma token_words_tag t name :
  tag t = Some name -> name <> "number" -> name <> "(" -> name <> ")" ->
  token_words t = [Name name].
Proof.
  intros Ht H1 H2 H3. unfold token_words, tag_is. rewrite Ht.
  destruct (String.eqb_spec name "number"); [contradiction|].
  destruct (String.eqb_spec name "("); [contradiction|].
  destruct (String.eqb_spec name ")"); [contradiction|]. reflexivity.
Qed.

Lemma token_words_paren t :
  tag_is t "number" = false -> tag_is t "(" || tag_is t ")" = true ->
  token_words t = [].
Proof. intros H1 H2. unfold token_words. now rewrite H1, H2. Qed.

Lemma closing_not_number t : tag_is t ")" = true -> tag_is t "number" = false.
Proof.
  unfold tag_is. destruct (tag t) as [x|]; [|discriminate].
  intros H. apply String.eqb_eq in H. now subst.
Qed.

(** The words of the tree are the words of the tokens that were taken. *)
Lemma expression_words fuel tokens node rest :
  parse_expression_n fuel tokens = Ok (node, rest) ->
  exists taken, tokens = taken ++ rest
                /\ flatten node = flat_map token_words taken.
Proof.
  apply (grammar_ind
           (fun tokens node rest =>
              exists taken, tokens = taken ++ rest
                            /\ flatten node = flat_map token_words taken)
           (fun node0 tokens node rest =>
              exists taken, tokens = taken ++ rest
                            /\ flatten node
                               = flatten node0 ++ flat_map token_words taken)).
  - intros t rest0 Hn. exists [t]. split; trivial.
    cbn [flat_map]. unfold token_words. rewrite Hn. reflexivity.
  - intros t rest0 node1 closing rest1 Hn Hp (taken & -> & Hw) Hc.
    exists (t :: taken ++ [closing]). split.
    + simpl. now rewrite <- app_assoc.
    + cbn [flat_map]. rewrite flat_map_app. cbn [flat_map].
      rewrite (token_words_paren t), (token_words_paren closing);
        trivial; rewrite ?Hp, ?Hc, ?orb_true_r; trivial.
      * now rewrite !app_nil_r.
      * now apply closing_not_number.
  - intros tokens0 node0 tokens1 node1 rest0 (t1 & -> & H1) (t2 & -> & H2).
    exists (t1 ++ t2). split; [now rewrite app_assoc|].
    now rewrite H2, H1, flat_map_app.
  - intros node1 tokens0. exists []. split; trivial.
    simpl. now rewrite app_nil_r.
  - intros node0 t rest0 op right_node tokens1 node1 rest2 Ht Hin
           (t1 & -> & H1) (t2 & -> & H2).
    exists (t :: t1 ++ t2). split; [simpl; now rewrite app_assoc|].
    rewrite H2. cbn [flatten flat_map]. rewrite flat_map_app, H1.
    rewrite (token_words_tag t op); trivial;
      [|destruct Hin as [<-|[<-|[<-|[<-|[]]]]]; discriminate..].
    now rewrite <- !app_assoc.
Qed.

Lemma expression_is_tree fuel tokens node rest :
  parse_expression_n fuel tokens = Ok (node, rest) -> expression_tree node.
Proof.
  apply (grammar_ind
           (fun _ node _ => expression_tree node)
           (fun node0 _ node _ => expression_tree node0 ->
                                  expression_tree node)); simpl; auto.
Qed.

Lemma statement_suffix tokens node rest :
  parse_statement tokens = Ok (node, rest) ->
  exists taken, tokens = taken ++ rest
                /\ flatten node = flat_map token_words taken.
Proof.
  unfold parse_statement. destruct tokens as [|t rest0]; [discriminate|].
  destruct (tag_is t "print") eqn:Hp.
  - intros H. apply bind_ok in H as ([n1 t1] & H1 & H2).
    injection H2 as <- <-.
    apply expression_words in H1 as (taken & -> & Hw).
    exists (t :: taken). split; trivial.
    cbn [flatten flat_map]. rewrite <- Hw.
    unfold tag_is in Hp. destruct (tag t) as [x|] eqn:Ht; [|discriminate].
    apply String.eqb_eq in Hp. subst x.
    now rewrite (token_words_tag t "print").
  - apply expression_words.
Qed.

(** X9. The parser keeps the order of what it reads: when
    [parse_statement] returns, the tokens it has taken are a non-empty
    front part of the input, and reading the tree from left to right gives
    the numbers and operators of these tokens in the same order, without
    the parentheses. *)
Theorem tree_reads_as_tokens tokens node rest :
  parse_statement tokens = Ok (node, rest) ->
  exists taken,
    taken <> [] /\ tokens = taken ++ rest
    /\ flatten node = flat_map token_words taken.
Proof.
  intros H. apply statement_suffix in H as (taken & -> & Hw).
  exists taken. repeat split; trivial.
  intros ->. simpl in Hw. destruct node; simpl in Hw; try discriminate.
  now destruct (flatten node1).
Qed.

(** X10. The trees that are returned: [parse_expression] returns numbers
    under the operators [+], [-], [*], [/] and never a print node; [parse]
    returns such a tree, or one print node above such a tree. *)
Theorem parse_builds_expression_trees :
  (forall tokens node rest,
      parse_expression tokens = Ok (node, rest) -> expression_tree node)
  /\ (forall tokens node,
         parse tokens = Ok node ->
         expression_tree node
         \/ exists e, node = Print e /\ expression_tree e).
Proof.
  split.
  - intros tokens node rest. apply expression_is_tree.
  - intros tokens node H. unfold parse in H.
    apply bind_ok in H as ([n1 t1] & H1 & H2). injection H2 as <-.
    unfold parse_statement in H1. destruct tokens as [|t rest0]; [discriminate|].
    destruct (tag_is t "print").
    + apply bind_ok in H1 as ([n2 t2] & H1 & H2). injection H2 as <- <-.
      right. exists n2. split; trivial. eapply expression_is_tree; eauto.
    + left. eapply expression_is_tree; eauto.
Qed.

(** X11. On the tokens that [tokenize] returns the parser never runs out of
    tokens, and the tokens that [parse_statement] leaves always end with the
    end marker of the input: the end marker is never taken. *)
Theorem parser_stops_at_end_marker (characters : list ascii) tokens :
  tokenize py_float characters = Ok tokens ->
  parse tokens <> Raise IndexError
  /\ forall node rest,
       parse_statement tokens = Ok (node, rest) ->
       exists body, rest = body ++ [end_marker (List.length characters)].
Proof.
  intros H. destruct (tokenize_ok py_float _ _ H) as (real & -> & _).
  assert (Hterm : terminated (real ++ [@end_marker float (List.length characters)])).
  { now exists real, (end_marker (List.length characters)). }
  split; [now apply parse_never_runs_out|].
  intros node rest Hs.
  assert (Hrest : terminated rest).
  { unfold parse_statement in Hs.
    destruct (real ++ [end_marker (List.length characters)])
      as [|t rest0] eqn:E; [discriminate|].
    destruct (tag_is t "print") eqn:Hp.
    - apply bind_ok in Hs as ([n1 t1] & H1 & H2). injection H2 as <- <-.
      revert H1. apply (end_marker_kept (budget rest0)).
      eapply terminated_cons; eauto using tag_is_some.
    - revert Hs. now apply (end_marker_kept (budget (t :: rest0))). }
  destruct Hrest as (body & e & -> & He).
  apply statement_suffix in Hs as (taken & Heq & _).
  rewrite app_assoc in Heq. apply app_inj_tail in Heq as [_ <-].
  now exists body.
Qed.

Lemma alike_tag_is (a b : token float) name :
  alike a b -> tag_is a name = tag_is b name.
Proof. intros [H _]. unfold tag_is. now rewrite H. Qed.

Lemma alike_tag_in (a b : token float) names :
  alike a b -> tag_in a names = tag_in b names.
Proof. intros [H _]. unfold tag_in. now rewrite H. Qed.

(** The grammar functions on two token lists that differ in positions
    only. *)
Lemma alike_results fuel :
  (forall tokens tokens' node rest,
      Forall2 alike tokens tokens' ->
      parse_factor_n fuel tokens = Ok (node, rest) ->
      exists rest', parse_factor_n fuel tokens' = Ok (node, rest')
                    /\ Forall2 alike rest rest')
  /\ (forall tokens tokens' node rest,
      Forall2 alike tokens tokens' ->
      parse_term_n fuel tokens = Ok (node, rest) ->
      exists rest', parse_term_n fuel tokens' = Ok (node, rest')
                    /\ Forall2 alike rest rest')
  /\ (forall node0 tokens tokens' node rest,
      Forall2 alike tokens tokens' ->
      parse_term_while_n fuel node0 tokens = Ok (node, rest) ->
      exists rest', parse_term_while_n fuel node0 tokens' = Ok (node, rest')
                    /\ Forall2 alike rest rest')
  /\ (forall tokens tokens' node rest,
      Forall2 alike tokens tokens' ->
      parse_expression_n fuel tokens = Ok (node, rest) ->
      exists rest', parse_expression_n fuel tokens' = Ok (node, rest')
                    /\ Forall2 alike rest rest')
  /\ (forall node0 tokens tokens' node rest,
      Forall2 alike tokens tokens' ->
      parse_expression_while_n fuel node0 tokens = Ok (node, rest) ->
      exists rest', parse_expression_while_n fuel node0 tokens'
                    = Ok (node, rest')
                    /\ Forall2 alike rest rest').
Proof.
  induction fuel as [|fuel (Hf & Ht & Htw & He & Hew)].
  - repeat split; intros; discriminate.
  - split; [|split; [|split; [|split]]]; intros * Hal;
      rewrite ?parse_factor_n_S, ?parse_term_n_S, ?parse_term_while_n_S,
        ?parse_expression_n_S, ?parse_expression_while_n_S.
    + destruct Hal as [|a b l l' Hab Hl]; [discriminate|].
      rewrite <- !(alike_tag_is a b) by assumption.
      destruct (tag_is a "number").
      { intros [= <- <-]. exists l'. split; trivial.
        now rewrite (proj2 Hab). }
      destruct (tag_is a "("); [|discriminate].
      intros H. apply bind_ok in H as ([n1 t1] & H1 & H2).
      destruct (He _ _ _ _ Hl H1) as (t1' & -> & Hal1). cbn [bind].
      destruct Hal1 as [|c d r r' Hcd Hr]; [discriminate|].
      rewrite <- (alike_tag_is c d) by assumption.
      destruct (tag_is c ")"); [|discriminate].
      injection H2 as <- <-. eauto.
    + intros H. apply bind_ok in H as ([n1 t1] & H1 & H2).
      destruct (Hf _ _ _ _ Hal H1) as (t1' & -> & Hal1). cbn [bind]. eauto.
    + destruct Hal as [|a b l l' Hab Hl]; [discriminate|].
      rewrite <- (alike_tag_in a b) by assumption.
      destruct (tag_in a _).
      * intros H. apply bind_ok in H as ([n1 t1] & H1 & H2).
        destruct (Hf _ _ _ _ Hl H1) as (t1' & -> & Hal1). cbn [bind]. eauto.
      * intros [= <- <-]. exists (b :: l'). split; trivial. now constructor.
    + intros H. apply bind_ok in H as ([n1 t1] & H1 & H2).
      destruct (Ht _ _ _ _ Hal H1) as (t1' & -> & Hal1). cbn [bind]. eauto.
    + destruct Hal as [|a b l l' Hab Hl]; [discriminate|].
      rewrite <- (alike_tag_in a b) by assumption.
      destruct (tag_in a _).
      * intros H. apply bind_ok in H as ([n1 t1] & H1 & H2).
        destruct (Ht _ _ _ _ Hl H1) as (t1' & -> & Hal1). cbn [bind]. eauto.
      * intros [= <- <-]. exists (b :: l'). split; trivial. now constructor.
Qed.

Lemma alike_budget tokens tokens' :
  Forall2 alike tokens tokens' -> budget tokens = budget tokens'.
Proof. intros H. unfold budget. now rewrite (Forall2_length H). Qed.

Lemma alike_parse tokens tokens' node :
  Forall2 alike tokens tokens' ->
  parse tokens = Ok node -> parse tokens' = Ok node.
Proof.
  intros Hal H. unfold parse in *.
  apply bind_ok in H as ([n1 t1] & H1 & H2). injection H2 as <-.
  unfold parse_statement in *.
  destruct Hal as [|a b l l' Hab Hl]; [discriminate|].
  rewrite <- (alike_tag_is a b) by assumption.
  destruct (tag_is a "print").
  - apply bind_ok in H1 as ([n2 t2] & H1 & H2). injection H2 as <- <-.
    unfold parse_expression in *. rewrite <- (alike_budget _ _ Hl).
    destruct (proj1 (proj2 (proj2 (proj2 (alike_results (budget l)))))
                _ _ _ _ Hl H1) as (r' & -> & _).
    reflexivity.
  - unfold parse_expression in *.
    assert (Hal : Forall2 alike (a :: l) (b :: l')) by now constructor.
    rewrite <- (alike_budget _ _ Hal).
    destruct (proj1 (proj2 (proj2 (proj2 (alike_results (budget (a :: l))))))
                _ _ _ _ Hal H1) as (r' & -> & _).
    reflexivity.
Qed.

(** X13. The tree does not depend on the positions of the tokens: when
    [parse] returns a tree for a token list, it returns the same tree for
    every token list with the same tags and values in the same order. *)
Theorem tree_ignores_positions tokens tokens' node :
  Forall2 alike tokens tokens' ->
  parse tokens = Ok node -> parse tokens' = Ok node.
Proof. apply alike_parse. Qed.

(** X12. The parser terminates on every token list: three nested calls or
    loop rounds per token, and three more, are enough for
    [parse_expression], a larger bound gives the same outcome, and [parse]
    always returns or raises. *)
Theorem parser_terminates tokens :
  (forall fuel,
      3 * List.length tokens + 3 <= fuel ->
      parse_expression_n fuel tokens = parse_expression tokens)
  /\ parse_expression tokens <> OutOfFuel
  /\ parse tokens <> OutOfFuel.
Proof.
  split; [|split].
  - intros fuel. apply parse_expression_stable.
  - apply parse_expression_total.
  - apply parse_total.
Qed.

End ParserExtras.

(** * Whitespace separates tokens *)

Section Separation.

Lemma span_app (c : cclass) (x z : list ascii) :
  span c (x ++ z)
  = if span c x =? List.length x then List.length x + span c z else span c x.
Proof.
  induction x as [|h x IH]; simpl; trivial.
  destruct (c h); trivial. rewrite IH.
  change (S (span c x) =? S (List.length x))
    with (span c x =? List.length x).
  now destruct (span c x =? List.length x).
Qed.

Lemma span_stop (c : cclass) (x : list ascii) (a : ascii) (y : list ascii) :
  c a = false -> span c (x ++ a :: y) = span c x.
Proof.
  intros H. rewrite span_app. simpl. rewrite H.
  destruct (Nat.eqb_spec (span c x) (List.length x)); lia.
Qed.

Lemma give_back_ext rest rest' s s' lo k :
  (forall j, j <= k -> rest (skipn j s) = rest' (skipn j s')) ->
  give_back rest s lo k = give_back rest' s' lo k.
Proof.
  induction k as [|k IH]; intros H;
    rewrite (give_back_eq rest s), (give_back_eq rest' s');
    destruct (_ <? lo); trivial; rewrite (H _ (le_n _));
    destruct (rest' _); trivial.
  apply IH. intros j Hj. apply H. lia.
Qed.

Lemma skipn_app_le {A : Type} (j : nat) (x y : list A) :
  j <= List.length x -> skipn j (x ++ y) = skipn j x ++ y.
Proof.
  intros H. rewrite skipn_app.
  replace (j - List.length x) with 0 by lia. reflexivity.
Qed.

(** A branch whose classes do not contain [a] matches the same before [a]
    whatever follows. *)
Lemma branch_before (b : branch) (a : ascii) (y : list ascii) :
  forallb (fun q => negb (fst q a)) b = true ->
  forall x, match_branch b (x ++ a :: y) = match_branch b x.
Proof.
  induction b as [|[c q] b IH]; intros Hb x; [reflexivity|].
  cbn [forallb fst] in Hb. apply andb_true_iff in Hb as [Hc Hb].
  apply negb_true_iff in Hc. specialize (IH Hb).
  assert (Hg : forall lo,
             give_back (match_branch b) (x ++ a :: y) lo (span c (x ++ a :: y))
             = give_back (match_branch b) x lo (span c x)).
  { intros lo. rewrite span_stop by assumption.
    apply give_back_ext. intros j Hj.
    pose proof (span_le c x). rewrite skipn_app_le by lia. apply IH. }
  destruct q; cbn [match_branch]; auto.
  destruct x as [|h x]; cbn [app].
  - now rewrite Hc.
  - now rewrite IH.
Qed.

Lemma regex_before (r : regex) (a : ascii) (x y : list ascii) :
  forallb (forallb (fun q => disjoint (fst q) space)) r = true ->
  space a = true ->
  match_regex r (x ++ a :: y) = match_regex r x.
Proof.
  intros Hr Ha. induction r as [|b r IH]; [reflexivity|].
  cbn [forallb] in Hr. apply andb_true_iff in Hr as [Hb Hr].
  cbn [match_regex]. rewrite branch_before, (IH Hr); trivial.
  rewrite forallb_forall in *. intros q Hq. specialize (Hb q Hq).
  destruct (fst q a) eqn:E; trivial.
  now rewrite (disjoint_spec _ _ _ Hb E) in Ha.
Qed.

Lemma whitespace_match (z : list ascii) :
  match_regex [[(space, Plus)]] z
  = if 1 <=? span space z then Some (span space z) else None.
Proof.
  cbn [match_regex match_branch]. rewrite give_back_eq.
  destruct (span space z) as [|k]; [reflexivity|].
  cbn [Nat.ltb Nat.leb]. now rewrite Nat.add_0_r.
Qed.

(** The first match in a text that is followed by a whitespace character:
    it is the first match in the text alone, except that a run of whitespace
    goes on into what follows. *)
Lemma first_match_before_space (x : list ascii) (a : ascii) (y : list ascii) :
  x <> [] -> space a = true ->
  first_match patterns (x ++ a :: y) 0
  = match first_match patterns x 0 with
    | Some (name, n) =>
        if String.eqb name "whitespace"
        then Some (name, span space (x ++ a :: y))
        else Some (name, n)
    | None => None
    end.
Proof.
  intros Hx Ha. unfold first_match, patterns, re_match. rewrite !skipn_0.
  rewrite !(regex_before _ a x y) by (assumption || (vm_compute; reflexivity)).
  repeat match goal with
         | |- context [match_regex ?r x] =>
             lazymatch r with
             | [[(space, Plus)]] => fail
             | [[(any_char, Once)]] => fail
             | _ => destruct (match_regex r x); [reflexivity|]
             end
         end.
  rewrite !whitespace_match.
  destruct x as [|h x]; [contradiction|]. cbn [app span].
  destruct (space h); [reflexivity|].
  cbn [Nat.leb match_regex match_branch]. now destruct (any_char h).
Qed.

Lemma whitespace_match_length (x : list ascii) (n : nat) :
  first_match patterns x 0 = Some ("whitespace", n) ->
  n = span space x /\ 1 <= n.
Proof.
  intros H. destruct (first_match_in _ _ _ _ _ H) as (pattern & Hin & Hre).
  apply whitespace_tag_pattern in Hin. subst pattern.
  unfold re_match in Hre. rewrite skipn_0, whitespace_match in Hre.
  destruct (Nat.leb_spec 1 (span space x)); [|discriminate].
  injection Hre as <-. now split.
Qed.

(** At a whitespace character the whitespace rule is the first to match,
    and it takes the run of whitespace. *)
Lemma first_match_space (a : ascii) (s : list ascii) :
  space a = true ->
  first_match patterns (a :: s) 0 = Some ("whitespace", span space (a :: s)).
Proof.
  intros Ha.
  destruct (space_char a Ha)
    as (Hd & Hdot & Hid & Hplus & Hminus & Hmul & Hdiv & Hl & Hr).
  assert (Hp : Ascii.eqb "p" a = false).
  { unfold ident_start in Hid. apply orb_false_iff in Hid as [Hid _].
    apply orb_false_iff in Hid as [Hid _].
    destruct (Ascii.eqb_spec "p"%char a) as [<-|]; [discriminate Hid|trivial]. }
  unfold patterns, first_match, re_match. rewrite skipn_0.
  rewrite lit_head_no_match by assumption.
  rewrite number_no_match, identifier_no_match by assumption.
  rewrite !lit_head_no_match by assumption.
  rewrite whitespace_match. cbn [span]. now rewrite Ha.
Qed.

End Separation.

Section SeparationLoop.

Context {float : Type} (py_float : list ascii -> float).

(** More rounds than needed do not change what the loop returns. *)
Lemma tokenize_while_mono characters fuel :
  forall (tokens : list (token float)) p out fuel',
    tokenize_while py_float fuel characters tokens p = Ok out ->
    fuel <= fuel' ->
    tokenize_while py_float fuel' characters tokens p = Ok out.
Proof.
  induction fuel as [|fuel IH]; intros tokens p out fuel';
    rewrite (tokenize_while_eq py_float _ characters),
            (tokenize_while_eq py_float fuel' characters);
    destruct (p <? List.length characters); trivial; [discriminate|].
  intros H Hle. destruct fuel' as [|fuel']; [lia|].
  destruct (first_match patterns characters p) as [[name n]|]; trivial.
  destruct (String.eqb name "error"); trivial.
  destruct (token_value py_float name _); trivial.
  cbn [bind] in *. apply IH; [assumption|lia].
Qed.

Lemma tokenize_while_enough characters fuel :
  forall (tokens : list (token float)) p fuel',
    List.length characters - p <= fuel ->
    List.length characters - p <= fuel' ->
    tokenize_while py_float fuel characters tokens p
    = tokenize_while py_float fuel' characters tokens p.
Proof.
  induction fuel as [|fuel IH]; intros tokens p fuel' H1 H2;
    rewrite (tokenize_while_eq py_float _ characters),
            (tokenize_while_eq py_float fuel' characters);
    destruct (Nat.ltb_spec p (List.length characters)); trivial; [lia|].
  destruct fuel' as [|fuel']; [lia|].
  destruct (first_match patterns characters p) as [[name n]|] eqn:Hfm; trivial.
  destruct (first_match_bounds _ _ _ _ Hfm) as (Hn & _).
  destruct (String.eqb name "error"); trivial.
  destruct (token_value py_float name _); trivial.
  cbn [bind]. apply IH; lia.
Qed.

Lemma skipn_app_ge {A : Type} (pre s : list A) (q : nat) :
  skipn (List.length pre + q) (pre ++ s) = skipn q s.
Proof.
  rewrite skipn_app, skipn_all2 by lia.
  replace (List.length pre + q - List.length pre) with q by lia.
  reflexivity.
Qed.

(** The loop on a text that stands behind [pre]: the same tokens, moved by
    the length of [pre]. *)
Lemma tokenize_while_shift (pre s : list ascii) (T : list (token float)) fuel :
  forall tokens q out,
    tokenize_while py_float fuel s tokens q = Ok out ->
    tokenize_while py_float fuel (pre ++ s)
      (T ++ map (shift (List.length pre)) tokens) (List.length pre + q)
    = Ok (T ++ map (shift (List.length pre)) out).
Proof.
  induction fuel as [|fuel IH]; intros tokens q out;
    rewrite (tokenize_while_eq py_float _ s),
            (tokenize_while_eq py_float _ (pre ++ s));
    rewrite length_app;
    destruct (Nat.ltb_spec q (List.length s));
    destruct (Nat.ltb_spec (List.length pre + q)
                (List.length pre + List.length s)); try lia;
    try discriminate;
    try (intros [= <-]; rewrite map_app, app_assoc; reflexivity).
  rewrite (first_match_skipn _ (pre ++ s)), skipn_app_ge, <- first_match_skipn.
  destruct (first_match patterns s q) as [[name n]|]; [|discriminate].
  destruct (String.eqb name "error"); [discriminate|].
  destruct (token_value py_float name _) as [v| |]; try discriminate.
  cbn [bind]. intros Hrun. apply IH in Hrun.
  rewrite <- Nat.add_assoc, <- Hrun. f_equal.
  destruct (negb _); trivial.
  now rewrite map_app, app_assoc.
Qed.

Lemma skipn_app_exact {A : Type} (pre s : list A) :
  skipn (List.length pre) (pre ++ s) = s.
Proof.
  rewrite <- (Nat.add_0_r (List.length pre)). now rewrite skipn_app_ge.
Qed.

Lemma firstn_app_le {A : Type} (n : nat) (x z : list A) :
  n <= List.length x -> firstn n (x ++ z) = firstn n x.
Proof.
  intros H. rewrite firstn_app.
  replace (n - List.length x) with 0 by lia.
  now rewrite firstn_0, app_nil_r.
Qed.

(** The loop on a text that is followed by whitespace: it builds the tokens
    of the text, skips the whitespace and goes on behind it. *)
Lemma tokenize_while_front (s1 : list ascii) (a : ascii) (y : list ascii)
      (tail : list (token float)) (fuel2 : nat) :
  space a = true ->
  (forall T', tokenize_while py_float fuel2 (s1 ++ a :: y) T'
                (List.length s1 + span space (a :: y))
              = Ok (T' ++ tail)) ->
  forall fuel T p out1,
    p <= List.length s1 ->
    tokenize_while py_float fuel s1 T p = Ok out1 ->
    exists new,
      out1 = T ++ new ++ [end_marker (List.length s1)]
      /\ tokenize_while py_float (S fuel + fuel2) (s1 ++ a :: y) T p
         = Ok (T ++ new ++ tail).
Proof.
  intros Ha Hcont.
  assert (Hjump : forall fuel T,
             tokenize_while py_float (fuel + fuel2) (s1 ++ a :: y) T
               (List.length s1 + span space (a :: y))
             = Ok (T ++ tail)).
  { intros fuel T. eapply tokenize_while_mono; [apply Hcont|lia]. }
  induction fuel as [|fuel IH]; intros T p out1 Hp;
    rewrite (tokenize_while_eq py_float _ s1);
    destruct (Nat.ltb_spec p (List.length s1)) as [Hlt|Hge];
    try discriminate.
  1, 3: intros [= <-]; exists []; assert (p = List.length s1) by lia; subst p;
    split; [reflexivity|];
    cbn [Nat.add]; rewrite tokenize_while_eq, length_app; cbn [List.length];
    (destruct (Nat.ltb_spec (List.length s1)
                (List.length s1 + S (List.length y))); [|lia]);
    rewrite first_match_skipn, skipn_app_exact, (first_match_space a y Ha);
    cbn [String.eqb Ascii.eqb Bool.eqb token_value bind negb app];
    first [apply Hcont | apply (Hjump (S fuel))].
  destruct (first_match patterns s1 p) as [[name n]|] eqn:Hfm; [|discriminate].
  destruct (first_match_bounds _ _ _ _ Hfm) as (Hn1 & Hn2 & _).
  destruct (String.eqb_spec name "error") as [->|Herr]; [discriminate|].
  destruct (token_value py_float name _) as [v| |] eqn:Hv; try discriminate.
  cbn [bind]. intros Hrun.
  assert (Hx : skipn p s1 <> []).
  { intros E. apply (f_equal (@List.length ascii)) in E.
    rewrite length_skipn in E. simpl in E. lia. }
  assert (Hlen : List.length (skipn p s1) = List.length s1 - p)
    by apply length_skipn.
  cbn [Nat.add]. rewrite (tokenize_while_eq py_float _ (s1 ++ a :: y)).
  rewrite length_app. cbn [List.length].
  destruct (Nat.ltb_spec p (List.length s1 + S (List.length y))); [|lia].
  rewrite (first_match_skipn _ (s1 ++ a :: y)), skipn_app_le by lia.
  rewrite (first_match_before_space _ a y Hx Ha), <- first_match_skipn, Hfm.
  destruct (String.eqb_spec name "whitespace") as [->|Hws].
  - destruct (whitespace_match_length (skipn p s1) n) as [Hn _];
      [now rewrite <- first_match_skipn|].
    cbn [String.eqb Ascii.eqb Bool.eqb token_value bind negb] in *.
    rewrite span_app.
    destruct (Nat.eqb_spec (span space (skipn p s1))
                (List.length (skipn p s1))) as [E|E].
    + rewrite Hlen.
      replace (p + (List.length s1 - p + span space (a :: y)))
        with (List.length s1 + span space (a :: y)) by lia.
      rewrite (Hjump (S fuel)).
      rewrite tokenize_while_eq in Hrun.
      destruct (Nat.ltb_spec (p + n) (List.length s1)); [lia|].
      injection Hrun as <-. exists []. split; trivial.
      replace (p + n) with (List.length s1) by lia. reflexivity.
    + rewrite <- Hn. now apply IH; [lia|].
  - destruct (String.eqb_spec name "error"); [contradiction|].
    rewrite firstn_app_le by lia. rewrite Hv. cbn [bind negb] in *.
    rewrite (proj2 (String.eqb_neq _ _) Hws). cbn [negb].
    apply IH in Hrun; [|lia].
    destruct Hrun as (new & -> & Hc).
    exists (mkToken (Some name) p v :: new). rewrite <- !app_assoc in *.
    split; [reflexivity|exact Hc].
Qed.

Lemma separated (s1 ws s2 : list ascii)
        (r1 r2 : list (token float)) :
  ws <> [] ->
  forallb space ws = true ->
  tokenize py_float s1 = Ok (r1 ++ [end_marker (List.length s1)]) ->
  tokenize py_float s2 = Ok (r2 ++ [end_marker (List.length s2)]) ->
  tokenize py_float (s1 ++ ws ++ s2)
  = Ok (r1 ++ map (shift (List.length s1 + List.length ws)) r2
           ++ [end_marker (List.length s1 + List.length ws
                           + List.length s2)]).
Proof.
  intros Hne Hws H1 H2. destruct ws as [|a ws']; [contradiction|].
  pose proof Hws as Hall. cbn [forallb] in Hws.
  apply andb_true_iff in Hws as [Ha Hws'].
  set (ws := a :: ws') in *.
  assert (Hj : span space (ws ++ s2) = List.length ws + span space s2).
  { rewrite span_app, (span_forallb _ _ Hall). now rewrite Nat.eqb_refl. }
  assert (Hs2 : exists fuel2,
             tokenize_while py_float fuel2 s2 [] (span space s2)
             = Ok (r2 ++ [end_marker (List.length s2)])).
  { destruct s2 as [|b s2']; [now exists 0|].
    destruct (space b) eqn:Hb.
    - exists (List.length s2'). unfold tokenize in H2.
      rewrite tokenize_while_eq in H2.
      cbn [List.length Nat.ltb Nat.leb] in H2.
      rewrite (first_match_space b s2' Hb) in H2.
      cbn [String.eqb Ascii.eqb Bool.eqb token_value bind negb Nat.add] in H2.
      exact H2.
    - exists (List.length (b :: s2')). cbn [span]. rewrite Hb. exact H2. }
  destruct Hs2 as [fuel2 Hs2].
  pose proof (fun T => tokenize_while_shift (s1 ++ ws) s2 T fuel2 _ _ _ Hs2)
    as Hcont.
  cbn [map] in Hcont. rewrite length_app in Hcont.
  assert (Hcont' : forall T',
             tokenize_while py_float fuel2 (s1 ++ a :: ws' ++ s2) T'
               (List.length s1 + span space (a :: ws' ++ s2))
             = Ok (T' ++ map (shift (List.length s1 + List.length ws))
                             (r2 ++ [end_marker (List.length s2)]))).
  { intros T'. specialize (Hcont T').
    rewrite app_nil_r, <- app_assoc, <- Nat.add_assoc in Hcont.
    change (a :: ws' ++ s2) with (ws ++ s2). now rewrite Hj. }
  destruct (tokenize_while_front s1 a (ws' ++ s2) _ fuel2 Ha Hcont'
              (List.length s1) [] 0 _ ltac:(lia) H1)
    as (new & Hnew & Hrun).
  cbn [app] in Hnew. apply app_inv_tail in Hnew. subst new.
  unfold tokenize. change (ws ++ s2) with (a :: ws' ++ s2).
  rewrite (tokenize_while_enough _ _ _ _
             (S (List.length s1) + fuel2
              + List.length (s1 ++ a :: ws' ++ s2))) by lia.
  erewrite tokenize_while_mono; [|exact Hrun|lia].
  cbn [app]. rewrite map_app. cbn [map]. unfold shift at 2.
  cbn [tag position value end_marker]. unfold end_marker.
  reflexivity.
Qed.

(** X14. Whitespace separates tokens: when two texts are accepted, the
    first text, some whitespace and the second text together give the tokens
    of the first text, followed by the tokens of the second text moved to
    the right by the length of what precedes them, and the end marker. *)
Theorem whitespace_separates (s1 ws s2 : list ascii)
        (r1 r2 : list (token float)) :
  ws <> [] ->
  forallb space ws = true ->
  tokenize py_float s1 = Ok (r1 ++ [end_marker (List.length s1)]) ->
  tokenize py_float s2 = Ok (r2 ++ [end_marker (List.length s2)]) ->
  tokenize py_float (s1 ++ ws ++ s2)
  = Ok (r1 ++ map (shift (List.length s1 + List.length ws)) r2
           ++ [end_marker (List.length s1 + List.length ws
                           + List.length s2)]).
Proof. apply separated. Qed.

Lemma shift_0 (t : token float) : shift 0 t = t.
Proof. now destruct t. Qed.

(** A text with whitespace before and behind it. *)
Lemma padded (ws1 s ws2 : list ascii) (r : list (token float)) :
  forallb space ws1 = true ->
  forallb space ws2 = true ->
  tokenize py_float s = Ok (r ++ [end_marker (List.length s)]) ->
  tokenize py_float (ws1 ++ s ++ ws2)
  = Ok (map (shift (List.length ws1)) r
           ++ [end_marker (List.length ws1 + List.length s
                           + List.length ws2)]).
Proof.
  intros H1 H2 Hs.
  assert (Hback : tokenize py_float (s ++ ws2)
                  = Ok (r ++ [end_marker (List.length (s ++ ws2))])).
  { destruct ws2 as [|b ws2']; [now rewrite app_nil_r|].
    pose proof (separated s (b :: ws2') [] r [] ltac:(discriminate) H2 Hs
                  eq_refl) as H.
    rewrite app_nil_r in H. rewrite H, length_app. cbn [map app List.length].
    now rewrite Nat.add_0_r. }
  destruct ws1 as [|a ws1'].
  - cbn [app List.length Nat.add]. rewrite Hback, length_app.
    f_equal. f_equal. clear. induction r as [|t r IH]; [reflexivity|].
    cbn [map]. now rewrite shift_0, <- IH.
  - pose proof (separated [] (a :: ws1') (s ++ ws2) [] r
                  ltac:(discriminate) H1 eq_refl Hback) as H.
    cbn [app List.length Nat.add] in *. rewrite H, length_app.
    now rewrite Nat.add_assoc.
Qed.

(** X15. Whitespace around a text changes nothing for the parser: when
    [parse(tokenize(s))] returns a tree, the same text with whitespace
    before and behind it is accepted by [tokenize] and parses to the same
    tree. *)
Theorem surrounding_whitespace_ignored (ws1 s ws2 : list ascii)
        (tokens : list (token float)) (node : ast float) :
  forallb space ws1 = true ->
  forallb space ws2 = true ->
  tokenize py_float s = Ok tokens ->
  parse tokens = Ok node ->
  exists tokens',
    tokenize py_float (ws1 ++ s ++ ws2) = Ok tokens'
    /\ parse tokens' = Ok node.
Proof.
  intros H1 H2 Hs Hp.
  destruct (tokenize_ok py_float _ _ Hs) as (r & -> & _).
  eexists. split; [apply (padded ws1 s ws2 r); assumption|].
  eapply alike_parse; [|exact Hp].
  apply Forall2_app; [|now repeat constructor].
  clear. induction r as [|t r IH]; constructor; trivial. now split.
Qed.

End SeparationLoop.

(** * The further theorems at concrete inputs *)

Lemma every_round_advances_witness :
  exists name n,
    first_match patterns (str "1+2") 1 = Some (name, n)
    /\ 1 <= n /\ 1 + n <= List.length (str "1+2").
Proof. apply every_round_advances. simpl. lia. Defined.

Lemma only_whitespace_is_lost_witness :
  exists real texts,
    [mkToken (Some "number") 0 (@VInt Q 1);
     mkToken (Some "+") 2 (VStr (str "+"));
     mkToken (Some "number") 4 (VInt 2);
     end_marker 5]
    = real ++ [end_marker (List.length (str "1 + 2"))]
    /\ Forall2 (text_of exact_decimal (str "1 + 2")) real texts
    /\ List.concat texts
       = filter (fun a => negb (space a)) (str "1 + 2").
Proof.
  apply (only_whitespace_is_lost exact_decimal (str "1 + 2")). reflexivity.
Defined.

Lemma whitespace_only_input_witness :
  tokenize exact_decimal (str "   ")
  = Ok [end_marker (List.length (str "   "))].
Proof. apply whitespace_only_input. reflexivity. Defined.

Lemma identifier_is_one_token_witness :
  tokenize exact_decimal (str "alpha")
  = Ok [mkToken (Some "identifier") 0 (VStr (str "alpha"));
        end_marker (S (List.length (str "lpha")))].
Proof.
  apply (identifier_is_one_token exact_decimal "a" (str "lpha")); reflexivity.
Defined.

Lemma digits_are_one_integer_token_witness :
  tokenize exact_decimal (str "333")
  = Ok [mkToken (Some "number") 0 (VInt (positional (str "333")));
        end_marker (List.length (str "333"))].
Proof.
  apply (digits_are_one_integer_token exact_decimal (str "333"));
    [discriminate|reflexivity|].
  unfold int_max_str_digits. simpl. lia.
Defined.

Lemma decimal_numeral_round_trip_witness :
  tokenize exact_decimal (str (show_nat 2024))
  = Ok [mkToken (Some "number") 0 (VInt (Z.of_nat 2024));
        end_marker (List.length (str (show_nat 2024)))].
Proof.
  apply decimal_numeral_round_trip.
  unfold int_max_str_digits. simpl. lia.
Defined.

Lemma keyword_first_witness :
  exists rest,
    [mkToken (Some "print") 0 (@VStr Q (str "print"));
     mkToken (Some "number") 6 (VInt 2);
     end_marker 7]
    = mkToken (Some "print") 0 (VStr (str "print")) :: rest.
Proof.
  apply (keyword_first exact_decimal (str " 2")). reflexivity.
Defined.

Lemma token_count_bound_witness :
  List.length [mkToken (Some "number") 0 (@VInt Q 1);
               mkToken (Some "+") 1 (VStr (str "+"));
               mkToken (Some "number") 2 (VInt 2);
               end_marker 3]
  <= List.length (str "1+2") + 1.
Proof.
  apply (token_count_bound exact_decimal (str "1+2")). reflexivity.
Defined.

Lemma tree_reads_as_tokens_witness :
  let tokens := [mkToken (Some "(") 0 (@VStr Q (str "("));
                 mkToken (Some "number") 1 (VInt 1);
                 mkToken (Some "+") 2 (VStr (str "+"));
                 mkToken (Some "number") 3 (VInt 2);
                 mkToken (Some ")") 4 (VStr (str ")"));
                 end_marker 5] in
  exists taken,
    taken <> [] /\ tokens = taken ++ [end_marker 5]
    /\ flatten (BinaryOp "+" (Number (VInt 1)) (Number (VInt 2)))
       = flat_map token_words taken.
Proof. apply tree_reads_as_tokens. reflexivity. Defined.

Lemma parse_builds_expression_trees_witness :
  expression_tree (@Print Q (BinaryOp "*" (Number (VInt 2)) (Number (VInt 4))))
  \/ exists e, @Print Q (BinaryOp "*" (Number (VInt 2)) (Number (VInt 4)))
               = Print e
               /\ expression_tree e.
Proof.
  apply (proj2 (@parse_builds_expression_trees Q)
           [mkToken (Some "print") 0 (VStr (str "print"));
            mkToken (Some "number") 6 (VInt 2);
            mkToken (Some "*") 7 (VStr (str "*"));
            mkToken (Some "number") 8 (VInt 4);
            end_marker 9]).
  reflexivity.
Defined.

Lemma parser_stops_at_end_marker_witness :
  let tokens := [mkToken (Some "number") 0 (@VInt Q 1);
                 mkToken (Some "number") 2 (VInt 2);
                 end_marker 3] in
  parse tokens <> Raise IndexError
  /\ forall node rest,
       parse_statement tokens = Ok (node, rest) ->
       exists body, rest = body ++ [end_marker (List.length (str "1 2"))].
Proof.
  apply (parser_stops_at_end_marker exact_decimal (str "1 2")). reflexivity.
Defined.

Lemma parser_terminates_witness :
  parse_expression_n 100 [mkToken (Some "number") 0 (@VInt Q 1); end_marker 1]
  = parse_expression [mkToken (Some "number") 0 (@VInt Q 1); end_marker 1].
Proof. apply parser_terminates. simpl. lia. Defined.

Lemma tree_ignores_positions_witness :
  parse [mkToken (Some "number") 0 (@VInt Q 1);
         mkToken (Some "+") 5 (VStr (str "+"));
         mkToken (Some "number") 9 (VInt 2);
         end_marker 12]
  = Ok (BinaryOp "+" (Number (VInt 1)) (Number (VInt 2))).
Proof.
  apply (tree_ignores_positions
           [mkToken (Some "number") 0 (@VInt Q 1);
            mkToken (Some "+") 1 (VStr (str "+"));
            mkToken (Some "number") 2 (VInt 2);
            end_marker 3]).
  - repeat constructor.
  - reflexivity.
Defined.

Lemma whitespace_separates_witness :
  tokenize exact_decimal (str "print" ++ str " " ++ str "x")
  = Ok ([mkToken (Some "print") 0 (VStr (str "print"))]
          ++ map (shift (List.length (str "print") + List.length (str " ")))
                 [mkToken (Some "identifier") 0 (VStr (str "x"))]
          ++ [end_marker (List.length (str "print") + List.length (str " ")
                          + List.length (str "x"))]).
Proof.
  apply whitespace_separates; [discriminate|reflexivity..].
Defined.

Lemma surrounding_whitespace_ignored_witness :
  exists tokens',
    tokenize exact_decimal (str " " ++ str "1+2" ++ str "  ") = Ok tokens'
    /\ parse tokens' = Ok (BinaryOp "+" (Number (VInt 1)) (Number (VInt 2))).
Proof.
  apply (surrounding_whitespace_ignored exact_decimal (str " ") (str "1+2")
           (str "  ")
           [mkToken (Some "number") 0 (VInt 1);
            mkToken (Some "+") 1 (VStr (str "+"));
            mkToken (Some "number") 2 (VInt 2);
            end_marker 3]); reflexivity.
Defined.
